(** * ooo-view: a shallow embedding of [main.go] and its specification

    The program asks a calendar provider for the out-of-office events of
    the members of a group and prints them as a weekly grid.  This file
    embeds the functions of [main.go] the specification talks about
    ([parseFlags], [getToken], [getOutOfOfficeEvents], [displayCalendar]
    and the window and fan-out code of [main]) and states the
    specification's claims about them. *)

From Stdlib Require Import ZArith Lia List String Ascii Bool.
From stdpp Require Import base option list gmap strings sorting pretty.

Local Open Scope Z_scope.
Set Warnings "-clear-no-such-hyp".

(** ** The part of Go's [time] package the program uses *)

Module GoTime.

(** [time.Duration] is a signed 64-bit count of nanoseconds. *)
Definition Duration := Z.
Definition Second : Duration := 1000000000.
Definition Hour : Duration := 3600 * Second.
Definition durationMin : Duration := - 2 ^ 63.
Definition durationMax : Duration := 2 ^ 63 - 1.

Definition secondsPerDay : Z := 86400.
Definition nanosPerDay : Z := secondsPerDay * Second.

(** A [time.Time] is an instant together with the zone it is shown in.
    Every [Time] the program does calendar arithmetic on is in UTC
    ([time.Now().UTC()], [time.Parse] of a date) or in the fixed zone
    that [time.Parse] fabricates for the offset written in an RFC 3339
    timestamp, so the zone is a constant offset, in seconds east of
    UTC.  ([time.Parse] returns the machine's local zone instead when the
    offset is the one in use there; the model is of a machine where that
    zone, too, is a constant offset.)  Instants are unbounded integers,
    where Go counts the seconds of an instant in 64 bits and computes
    with them modulo 2^64: the functions below are those of Go on the
    instants that [within (2 ^ 62)] admits, some hundred billion years
    to either side of 1970, and not beyond. *)
Record Time := mkTime { unixNano : Z; zoneOffset : Z }.

(** [t] is less than [seconds] seconds away from 1970-01-01T00:00:00Z. *)
Definition within (seconds : Z) (t : Time) : Prop :=
  - seconds * Second <= unixNano t < seconds * Second.

(** [*time.Location] as [time.Date] consults it: the offset, in seconds
    east of UTC, in force when a wall clock of that location reads [w]
    seconds after 1970-01-01T00:00:00. *)
Definition Location := Z -> Z.
Definition UTCLoc : Location := fun _ => 0.
Definition FixedZone (offset : Z) : Location := fun _ => offset.
Definition LocationOf (t : Time) : Location := FixedZone (zoneOffset t).

Definition UTC (t : Time) : Time := mkTime (unixNano t) 0.

(** *** Civil calendar (proleptic Gregorian) *)

Definition daysToEpochShift : Z := 719468.
Definition daysPerEra : Z := 146097.

(** The year, counted from March, of day [doe] of a 400-year era. *)
Definition yearOfEra (doe : Z) : Z :=
  (doe - doe / 1460 + doe / 36524 - doe / 146096) / 365.

Definition dayOfYear (doe : Z) : Z :=
  let yoe := yearOfEra doe in doe - (365 * yoe + yoe / 4 - yoe / 100).

(** Civil date [(year, month, day)] of a day number counted from
    1970-01-01. *)
Definition civilFromDays (z : Z) : Z * Z * Z :=
  let z := z + daysToEpochShift in
  let era := z / daysPerEra in
  let doe := z - era * daysPerEra in
  let yoe := yearOfEra doe in
  let doy := dayOfYear doe in
  let mp := (5 * doy + 2) / 153 in
  let d := doy - (153 * mp + 2) / 5 + 1 in
  let m := if mp <? 10 then mp + 3 else mp - 9 in
  let y := yoe + era * 400 in
  (if m <=? 2 then y + 1 else y, m, d).

(** Day number of a civil date; [d] may lie outside the month, as in
    [time.Date], which normalises it ("October 32" is November 1). *)
Definition daysFromCivil (y m d : Z) : Z :=
  let y := if m <=? 2 then y - 1 else y in
  let era := y / 400 in
  let yoe := y - era * 400 in
  let mp := if 2 <? m then m - 3 else m + 9 in
  let doy := (153 * mp + 2) / 5 + d - 1 in
  let doe := yoe * 365 + yoe / 4 - yoe / 100 + doy in
  era * daysPerEra + doe - daysToEpochShift.

(** *** Accessors and arithmetic of [time.Time] *)

Definition wallSeconds (t : Time) : Z := unixNano t / Second + zoneOffset t.
Definition civilDay (t : Time) : Z := wallSeconds t / secondsPerDay.

Definition YearMonthDay (t : Time) : Z * Z * Z := civilFromDays (civilDay t).
Definition Year (t : Time) : Z := (YearMonthDay t).1.1.
Definition Month (t : Time) : Z := (YearMonthDay t).1.2.
Definition Day (t : Time) : Z := (YearMonthDay t).2.

Definition secondOfDay (t : Time) : Z := wallSeconds t mod secondsPerDay.
Definition Nanosecond (t : Time) : Z := unixNano t mod Second.

(** [time.Weekday]: Sunday is 0, Monday is 1, ...; 1970-01-01 was a
    Thursday. *)
Definition Sunday : Z := 0.
Definition Monday : Z := 1.
Definition Weekday (t : Time) : Z := (civilDay t + 4) mod 7.

(** [time.Date(y, m, d, hh, mm, ss, nsec, loc)] for a month in 1..12. *)
Definition Date (y m d hh mm ss nsec : Z) (loc : Location) : Time :=
  let wall := daysFromCivil y m d * secondsPerDay + hh * 3600 + mm * 60 + ss in
  let off := loc wall in
  mkTime ((wall - off) * Second + nsec) off.

(** [t.AddDate(0, 0, days)]: the same wall clock, [days] days later. *)
Definition AddDate (t : Time) (days : Z) : Time :=
  let s := secondOfDay t in
  Date (Year t) (Month t) (Day t + days)
       (s / 3600) (s mod 3600 / 60) (s mod 60) (Nanosecond t) (LocationOf t).

Definition Before (t u : Time) : bool := unixNano t <? unixNano u.
Definition After (t u : Time) : bool := unixNano u <? unixNano t.
Definition Equal (t u : Time) : bool := unixNano t =? unixNano u.

(** [t.Sub(u)]: the difference, saturated to the range of
    [time.Duration]. *)
Definition Sub (t u : Time) : Duration :=
  let d := unixNano t - unixNano u in
  if d <? durationMin then durationMin
  else if durationMax <? d then durationMax
  else d.

(** [t.Format("2006-01-02")] names the civil date of [t] in its zone;
    the date itself stands for the string. *)
Definition DateKey : Type := Z * Z * Z.
Definition FormatDate (t : Time) : DateKey := YearMonthDay t.

(** *** Facts about the calendar *)

Lemma eraDay_bounds doe :
  0 <= doe < daysPerEra ->
  0 <= yearOfEra doe <= 399 /\ 0 <= dayOfYear doe <= 365.
Proof.
  unfold daysPerEra, dayOfYear, yearOfEra. intros Hdoe.
  Z.to_euclidean_division_equations. lia.
Qed.

(** The day number of the civil date of a day is that day. *)
Lemma daysFromCivil_civilFromDays z :
  let '(y, m, d) := civilFromDays z in daysFromCivil y m d = z.
Proof.
  unfold civilFromDays, daysFromCivil.
  set (z' := z + daysToEpochShift).
  set (era := z' / daysPerEra).
  set (doe := z' - era * daysPerEra).
  assert (Hdoe : 0 <= doe < daysPerEra).
  { subst doe era. unfold daysPerEra.
    pose proof (Z.div_mod z' 146097 ltac:(lia)).
    pose proof (Z.mod_pos_bound z' 146097 ltac:(lia)). lia. }
  destruct (eraDay_bounds doe Hdoe) as [Hyoe Hdoy].
  unfold dayOfYear in *.
  set (yoe := yearOfEra doe) in *.
  set (doy := doe - (365 * yoe + yoe / 4 - yoe / 100)) in *.
  set (mp := (5 * doy + 2) / 153).
  assert (Hmp : 0 <= mp <= 11).
  { subst mp. split.
    - apply Z.div_pos; lia.
    - apply Z.lt_succ_r. apply Z.div_lt_upper_bound; lia. }
  set (m := if mp <? 10 then mp + 3 else mp - 9).
  assert (Hm : (if 2 <? m then m - 3 else m + 9) = mp).
  { subst m. destruct (Z.ltb_spec mp 10).
    - destruct (Z.ltb_spec 2 (mp + 3)); lia.
    - destruct (Z.ltb_spec 2 (mp - 9)); lia. }
  rewrite Hm.
  assert (Hy : (if m <=? 2
                then (if m <=? 2 then yoe + era * 400 + 1 else yoe + era * 400) - 1
                else (if m <=? 2 then yoe + era * 400 + 1 else yoe + era * 400))
               = yoe + era * 400).
  { destruct (m <=? 2); lia. }
  rewrite Hy.
  assert (Hera : (yoe + era * 400) / 400 = era).
  { rewrite Z.div_add by lia. rewrite Z.div_small by lia. lia. }
  rewrite Hera.
  replace (yoe + era * 400 - era * 400) with yoe by lia.
  subst doy doe z'. lia.
Qed.

Lemma civilFromDays_inj z1 z2 : civilFromDays z1 = civilFromDays z2 -> z1 = z2.
Proof.
  intros Heq.
  pose proof (daysFromCivil_civilFromDays z1) as H1.
  pose proof (daysFromCivil_civilFromDays z2) as H2.
  rewrite Heq in H1. destruct (civilFromDays z2) as [[y m] d]. congruence.
Qed.

Lemma daysFromCivil_add_days y m d k :
  daysFromCivil y m (d + k) = daysFromCivil y m d + k.
Proof. unfold daysFromCivil. lia. Qed.

Lemma daysFromCivil_YearMonthDay t k :
  daysFromCivil (Year t) (Month t) (Day t + k) = civilDay t + k.
Proof.
  rewrite daysFromCivil_add_days. unfold Year, Month, Day, YearMonthDay.
  pose proof (daysFromCivil_civilFromDays (civilDay t)) as H.
  destruct (civilFromDays (civilDay t)) as [[y m] d]. simpl. lia.
Qed.

Lemma clock_recompose s :
  s / 3600 * 3600 + s mod 3600 / 60 * 60 + s mod 60 = s.
Proof. Z.to_euclidean_division_equations. lia. Qed.

(** In a fixed zone [AddDate(0, 0, k)] moves the instant by [k] days of
    86400 seconds and keeps the zone. *)
Lemma AddDate_unixNano t k :
  unixNano (AddDate t k) = unixNano t + k * nanosPerDay.
Proof.
  unfold AddDate, Date, LocationOf, FixedZone. cbn [unixNano].
  rewrite daysFromCivil_YearMonthDay.
  pose proof (clock_recompose (secondOfDay t)) as Hclock.
  unfold secondOfDay, civilDay, Nanosecond, nanosPerDay in *.
  pose proof (Z.div_mod (wallSeconds t) secondsPerDay ltac:(unfold secondsPerDay; lia)) as Hwall.
  pose proof (Z.div_mod (unixNano t) Second ltac:(unfold Second; lia)) as Hns.
  unfold wallSeconds in *.
  set (q := (unixNano t / Second + zoneOffset t) / secondsPerDay) in *.
  set (r := (unixNano t / Second + zoneOffset t) mod secondsPerDay) in *.
  unfold secondsPerDay in *. nia.
Qed.

Lemma AddDate_zoneOffset t k : zoneOffset (AddDate t k) = zoneOffset t.
Proof. reflexivity. Qed.

Lemma AddDate_eq t k :
  AddDate t k = mkTime (unixNano t + k * nanosPerDay) (zoneOffset t).
Proof.
  pose proof (AddDate_unixNano t k). pose proof (AddDate_zoneOffset t k).
  destruct (AddDate t k); simpl in *; congruence.
Qed.

Lemma civilDay_shift ns off k :
  civilDay (mkTime (ns + k * nanosPerDay) off) = civilDay (mkTime ns off) + k.
Proof.
  unfold civilDay, wallSeconds, nanosPerDay. cbn [unixNano zoneOffset].
  replace (ns + k * (secondsPerDay * Second))
    with (ns + (k * secondsPerDay) * Second) by lia.
  rewrite Z.div_add by (unfold Second; lia).
  replace (ns / Second + k * secondsPerDay + off)
    with (ns / Second + off + k * secondsPerDay) by lia.
  rewrite Z.div_add by (unfold secondsPerDay; lia). reflexivity.
Qed.

Lemma civilDay_AddDate t k : civilDay (AddDate t k) = civilDay t + k.
Proof. rewrite AddDate_eq. destruct t as [ns off]. apply civilDay_shift. Qed.

Lemma Weekday_AddDate t k : Weekday (AddDate t k) = (Weekday t + k) mod 7.
Proof.
  unfold Weekday. rewrite civilDay_AddDate.
  rewrite Zplus_mod_idemp_l. f_equal. lia.
Qed.

Lemma Weekday_range t : 0 <= Weekday t < 7.
Proof. unfold Weekday. apply Z.mod_pos_bound. lia. Qed.

Lemma AddDate_AddDate t j k : AddDate (AddDate t j) k = AddDate t (j + k).
Proof. rewrite !AddDate_eq. cbn [unixNano zoneOffset]. f_equal. lia. Qed.

Lemma AddDate_0 t : AddDate t 0 = t.
Proof. rewrite AddDate_eq. destruct t. cbn. f_equal. lia. Qed.

(** Two times of one zone show the same date exactly when they fall on
    the same civil day. *)
Lemma FormatDate_eq_iff t u : FormatDate t = FormatDate u <-> civilDay t = civilDay u.
Proof.
  unfold FormatDate, YearMonthDay. split.
  - apply civilFromDays_inj.
  - intros ->. reflexivity.
Qed.

(** [Sub] is the exact difference whenever that fits a [Duration]. *)
Lemma Sub_exact t u :
  durationMin <= unixNano t - unixNano u <= durationMax ->
  Sub t u = unixNano t - unixNano u.
Proof.
  intros H. unfold Sub.
  destruct (Z.ltb_spec (unixNano t - unixNano u) durationMin); [lia|].
  destruct (Z.ltb_spec durationMax (unixNano t - unixNano u)); lia.
Qed.

(** Against a threshold above the least [Duration], the saturated
    difference compares as the exact one. *)
Lemma Sub_ge_iff t u (m : Duration) :
  durationMin < m <= durationMax ->
  (m <= Sub t u <-> m <= unixNano t - unixNano u).
Proof.
  intros Hm. unfold Sub.
  destruct (Z.ltb_spec (unixNano t - unixNano u) durationMin); [lia|].
  destruct (Z.ltb_spec durationMax (unixNano t - unixNano u)); lia.
Qed.

End GoTime.

Import GoTime.

(** ** Machine integers *)

(** Go's [int] on the 64-bit platforms the program is built for. *)
Definition maxInt64 : Z := 2 ^ 63 - 1.
Definition wrapInt64 (z : Z) : Z := (z + 2 ^ 63) mod 2 ^ 64 - 2 ^ 63.

Lemma wrapInt64_small z : - 2 ^ 63 <= z <= maxInt64 -> wrapInt64 z = z.
Proof.
  unfold wrapInt64, maxInt64. intros Hz.
  rewrite Z.mod_small by lia. lia.
Qed.

(** Sequencing of steps that may stop early: the rest runs on the value
    of a step that succeeded. *)
Notation "'let*' x := y 'in' z" :=
  (match y with Some x => z | None => None end)
  (at level 10, x name, y at level 100, z at level 200, only parsing).
Notation "'let*' ' p := y 'in' z" :=
  (match y with Some p => z | None => None end)
  (at level 10, p pattern, y at level 100, z at level 200, only parsing).

(** ** [main]: the query window *)

(** The two loops of [main] (and the one of [displayCalendar]) that walk
    day by day until a weekday is reached:
    [for t.Weekday() != wd { t = t.AddDate(0, 0, step) }]. *)
Fixpoint seekWeekday (fuel : nat) (wd step : Z) (t : Time) : option Time :=
  match fuel with
  | O => None
  | S fuel' =>
      if Weekday t =? wd then Some t
      else seekWeekday fuel' wd step (AddDate t step)
  end.

(** No walk takes more than six steps. *)
Definition weekFuel : nat := 7.

Record Window := mkWindow { winStart : Time; winEnd : Time }.

(** [main], lines 528-541; [timeNow] is what [time.Now()] returned and
    [WeeksAhead] is [cfg.WeeksAhead].  The day count [WeeksAhead * 7] is
    a machine integer; the instants are computed in the integers, as Go
    computes them while they stay in range (far more than [maxWeeks]
    weeks from a current time are needed to leave it). *)
Definition queryWindow (timeNow : Time) (WeeksAhead : Z) : option Window :=
  let* now := seekWeekday weekFuel Monday (-1) (UTC timeNow) in
  let now := Date (Year now) (Month now) (Day now) 0 0 0 0 (LocationOf now) in
  let end_ := AddDate now (wrapInt64 (WeeksAhead * 7)) in
  let* end_ := seekWeekday weekFuel Sunday 1 end_ in
  let end_ := Date (Year end_) (Month end_) (Day end_) 23 59 59 0 (LocationOf end_) in
  Some (mkWindow now end_).

(** The window as the specification words it: the Monday at or after
    "now", the Sunday at or before "now + N weeks", start before end. *)
Definition claimedWindow (timeNow : Time) (N : Z) (w : Window) : Prop :=
  Weekday (winStart w) = Monday /\
  unixNano timeNow <= unixNano (winStart w) /\
  Weekday (winEnd w) = Sunday /\
  unixNano (winEnd w) <= unixNano timeNow + N * 7 * nanosPerDay /\
  unixNano (winStart w) <= unixNano (winEnd w).

Lemma seekWeekday_back fuel : forall t wd,
  0 <= wd < 7 ->
  ((Weekday t - wd) mod 7 < Z.of_nat fuel) ->
  seekWeekday fuel wd (-1) t = Some (AddDate t (- ((Weekday t - wd) mod 7))).
Proof.
  induction fuel as [|fuel IH]; intros t wd Hwd Hk.
  - pose proof (Z.mod_pos_bound (Weekday t - wd) 7 ltac:(lia)). lia.
  - pose proof (Weekday_range t) as Hr. cbn [seekWeekday].
    destruct (Z.eqb_spec (Weekday t) wd) as [->|Hne].
    + rewrite Z.sub_diag, Zmod_0_l. change (- 0) with 0. rewrite AddDate_0. reflexivity.
    + assert (Hstep : (Weekday (AddDate t (-1)) - wd) mod 7
                      = (Weekday t - wd) mod 7 - 1).
      { rewrite Weekday_AddDate. revert Hr Hne Hwd.
        generalize (Weekday t). intros w Hr Hne Hwd.
        Z.to_euclidean_division_equations. lia. }
      rewrite IH by (try rewrite Hstep; lia).
      rewrite Hstep, AddDate_AddDate.
      replace (-1 + - ((Weekday t - wd) mod 7 - 1))
        with (- ((Weekday t - wd) mod 7)) by lia.
      reflexivity.
Qed.

Lemma seekWeekday_forth fuel : forall t wd,
  0 <= wd < 7 ->
  ((wd - Weekday t) mod 7 < Z.of_nat fuel) ->
  seekWeekday fuel wd 1 t = Some (AddDate t ((wd - Weekday t) mod 7)).
Proof.
  induction fuel as [|fuel IH]; intros t wd Hwd Hk.
  - pose proof (Z.mod_pos_bound (wd - Weekday t) 7 ltac:(lia)). lia.
  - pose proof (Weekday_range t) as Hr. cbn [seekWeekday].
    destruct (Z.eqb_spec (Weekday t) wd) as [->|Hne].
    + rewrite Z.sub_diag, Zmod_0_l. rewrite AddDate_0. reflexivity.
    + assert (Hstep : (wd - Weekday (AddDate t 1)) mod 7
                      = (wd - Weekday t) mod 7 - 1).
      { rewrite Weekday_AddDate. revert Hr Hne Hwd.
        generalize (Weekday t). intros w Hr Hne Hwd.
        Z.to_euclidean_division_equations. lia. }
      rewrite IH by (try rewrite Hstep; lia).
      rewrite Hstep, AddDate_AddDate.
      replace (1 + ((wd - Weekday t) mod 7 - 1))
        with ((wd - Weekday t) mod 7) by lia.
      reflexivity.
Qed.

(** [time.Date(t.Year(), t.Month(), t.Day(), hh, mm, ss, 0, t.Location())]
    is the civil day of [t] at the clock time [hh:mm:ss]. *)
Lemma Date_of_day t hh mm ss :
  Date (Year t) (Month t) (Day t) hh mm ss 0 (LocationOf t)
  = mkTime ((civilDay t * secondsPerDay + hh * 3600 + mm * 60 + ss
             - zoneOffset t) * Second) (zoneOffset t).
Proof.
  unfold Date, LocationOf, FixedZone.
  pose proof (daysFromCivil_YearMonthDay t 0) as H.
  rewrite !Z.add_0_r in H. rewrite H, Z.add_0_r. reflexivity.
Qed.

Lemma civilDay_of_clock day clock off :
  0 <= clock < secondsPerDay ->
  civilDay (mkTime ((day * secondsPerDay + clock - off) * Second) off) = day.
Proof.
  intros Hc. unfold civilDay, wallSeconds. cbn [unixNano zoneOffset].
  rewrite Z.div_mul by (unfold Second; lia).
  replace (day * secondsPerDay + clock - off + off)
    with (clock + day * secondsPerDay) by lia.
  rewrite Z.div_add by (unfold secondsPerDay; lia).
  rewrite Z.div_small by lia. lia.
Qed.

(** The civil day, in UTC, of the Monday that starts the window. *)
Definition mondayOf (timeNow : Time) : Z :=
  civilDay (UTC timeNow) - (Weekday (UTC timeNow) - Monday) mod 7.

(** The civil day of the Sunday that ends it, [n7] being the day count
    [cfg.WeeksAhead*7] as the machine computed it. *)
Definition sundayOf (timeNow : Time) (n7 : Z) : Z :=
  mondayOf timeNow + n7 + (6 - n7) mod 7.

Lemma mondayOf_weekday timeNow : (mondayOf timeNow + 4) mod 7 = Monday.
Proof.
  unfold mondayOf, Weekday, Monday.
  generalize (civilDay (UTC timeNow)). intros d.
  Z.to_euclidean_division_equations. lia.
Qed.

Lemma queryWindow_eq timeNow N :
  queryWindow timeNow N =
    Some (mkWindow
            (mkTime (mondayOf timeNow * secondsPerDay * Second) 0)
            (mkTime ((sundayOf timeNow (wrapInt64 (N * 7)) * secondsPerDay
                      + 86399) * Second) 0)).
Proof.
  unfold queryWindow, weekFuel.
  rewrite seekWeekday_back; cycle 1.
  { unfold Monday; lia. }
  { pose proof (Z.mod_pos_bound (Weekday (UTC timeNow) - Monday) 7 ltac:(lia)).
    change (Z.of_nat 7) with 7. lia. }
  cbv beta iota zeta.
  set (m := AddDate (UTC timeNow) (- ((Weekday (UTC timeNow) - Monday) mod 7))).
  assert (Hm : civilDay m = mondayOf timeNow)
    by (subst m; rewrite civilDay_AddDate; unfold mondayOf; lia).
  assert (Hoff : zoneOffset m = 0)
    by (subst m; rewrite AddDate_zoneOffset; reflexivity).
  rewrite (Date_of_day m 0 0 0), Hm, Hoff.
  replace (mondayOf timeNow * secondsPerDay + 0 * 3600 + 0 * 60 + 0 - 0)
    with (mondayOf timeNow * secondsPerDay + 0 - 0) by lia.
  set (start := mkTime ((mondayOf timeNow * secondsPerDay + 0 - 0) * Second) 0).
  assert (Hstart : civilDay start = mondayOf timeNow)
    by (apply civilDay_of_clock; unfold secondsPerDay; lia).
  set (n7 := wrapInt64 (N * 7)).
  assert (Hwd : Weekday (AddDate start n7) = (Monday + n7) mod 7).
  { rewrite Weekday_AddDate. unfold Weekday at 1.
    rewrite Hstart, mondayOf_weekday. reflexivity. }
  rewrite seekWeekday_forth; cycle 1.
  { unfold Sunday; lia. }
  { pose proof (Z.mod_pos_bound (Sunday - Weekday (AddDate start n7)) 7 ltac:(lia)).
    change (Z.of_nat 7) with 7. lia. }
  cbv beta iota zeta.
  set (e := AddDate (AddDate start n7) ((Sunday - Weekday (AddDate start n7)) mod 7)).
  assert (He : civilDay e = sundayOf timeNow n7).
  { subst e. rewrite !civilDay_AddDate, Hwd, Hstart. unfold sundayOf, Sunday, Monday.
    generalize (mondayOf timeNow). intros d.
    Z.to_euclidean_division_equations. lia. }
  assert (Hoffe : zoneOffset e = 0)
    by (subst e; rewrite !AddDate_zoneOffset; reflexivity).
  rewrite (Date_of_day e 23 59 59), He, Hoffe.
  subst start.
  replace (mondayOf timeNow * secondsPerDay + 0 - 0)
    with (mondayOf timeNow * secondsPerDay) by lia.
  replace (sundayOf timeNow n7 * secondsPerDay + 23 * 3600 + 59 * 60 + 59 - 0)
    with (sundayOf timeNow n7 * secondsPerDay + 86399) by lia.
  reflexivity.
Qed.

Lemma sundayOf_weekday timeNow n7 : (sundayOf timeNow n7 + 4) mod 7 = Sunday.
Proof.
  pose proof (mondayOf_weekday timeNow) as Hm. revert Hm.
  unfold sundayOf, Sunday, Monday. generalize (mondayOf timeNow). intros d Hm.
  Z.to_euclidean_division_equations. lia.
Qed.

(** The weeks-ahead counts for which, from a current time within 2^61
    seconds of 1970, every instant that [main] computes stays within
    2^62 seconds of it, where the arithmetic of the model is Go's. *)
Definition maxWeeks : Z := 10 ^ 12.

(** C3 (amended).  For every current time and every weeks-ahead count
    in the range of Go's time arithmetic [main] computes a window.  Its
    start is 00:00:00 UTC of the Monday at or before "now" (the Monday
    of the current week); its end is a Sunday at 23:59:59 UTC; when
    [WeeksAhead] is not negative the start is before the end.  The
    configured timezone plays no part: both ends are week boundaries of
    UTC.  Both ends are in the range of Go's time arithmetic. *)
Theorem queryWindow_current_week_utc (timeNow : Time) (N : Z) :
  within (2 ^ 61) timeNow ->
  - maxWeeks <= N <= maxWeeks ->
  exists w, queryWindow timeNow N = Some w /\
    zoneOffset (winStart w) = 0 /\
    Weekday (winStart w) = Monday /\
    unixNano (winStart w) = civilDay (winStart w) * nanosPerDay /\
    unixNano (winStart w) <= unixNano timeNow
      < unixNano (winStart w) + 7 * nanosPerDay /\
    zoneOffset (winEnd w) = 0 /\
    Weekday (winEnd w) = Sunday /\
    unixNano (winEnd w)
      = civilDay (winEnd w) * nanosPerDay + (23 * 3600 + 59 * 60 + 59) * Second /\
    (0 <= N -> unixNano (winStart w) <= unixNano (winEnd w)) /\
    within (2 ^ 62) (winStart w) /\
    within (2 ^ 62) (winEnd w).
Proof.
  intros Hnear HN.
  eexists. split; [apply queryWindow_eq|].
  cbn [winStart winEnd zoneOffset unixNano].
  set (mon := mondayOf timeNow).
  set (sun := sundayOf timeNow (wrapInt64 (N * 7))).
  assert (Hmon : civilDay (mkTime (mon * secondsPerDay * Second) 0) = mon).
  { replace (mon * secondsPerDay * Second)
      with ((mon * secondsPerDay + 0 - 0) * Second) by lia.
    apply civilDay_of_clock. unfold secondsPerDay. lia. }
  assert (Hsun : civilDay (mkTime ((sun * secondsPerDay + 86399) * Second) 0) = sun).
  { replace (sun * secondsPerDay + 86399)
      with (sun * secondsPerDay + 86399 - 0) by lia.
    apply civilDay_of_clock. unfold secondsPerDay. lia. }
  assert (Hnow : mon * nanosPerDay <= unixNano timeNow
                 < mon * nanosPerDay + 7 * nanosPerDay).
  { subst mon. unfold mondayOf, Weekday, civilDay, wallSeconds, UTC, Monday.
    cbn [unixNano zoneOffset]. unfold nanosPerDay, secondsPerDay, Second.
    generalize (unixNano timeNow). intros ns.
    Z.to_euclidean_division_equations. lia. }
  assert (Hsun_eq : sun = mon + N * 7 + 6).
  { subst sun mon. unfold sundayOf.
    rewrite wrapInt64_small by (unfold maxWeeks, maxInt64 in *; lia).
    generalize (mondayOf timeNow). intros d.
    Z.to_euclidean_division_equations. lia. }
  unfold within in *. cbn [unixNano].
  split; [reflexivity|].
  split; [unfold Weekday; rewrite Hmon; apply mondayOf_weekday|].
  split; [rewrite Hmon; unfold nanosPerDay; lia|].
  split; [unfold nanosPerDay in *; lia|].
  split; [reflexivity|].
  split; [unfold Weekday; rewrite Hsun; apply sundayOf_weekday|].
  split; [rewrite Hsun; unfold nanosPerDay, secondsPerDay, Second; lia|].
  split.
  - intros HN0. rewrite Hsun_eq.
    unfold nanosPerDay, secondsPerDay, Second. lia.
  - rewrite Hsun_eq.
    unfold maxWeeks, nanosPerDay, secondsPerDay, Second in *. lia.
Qed.

(** The window computed on Tuesday 2025-05-13 at 10:00 UTC for eight
    weeks ahead: Monday 2025-05-12 00:00:00 to Sunday 2025-07-13
    23:59:59, both UTC. *)
Definition tuesdayMorning : Time := Date 2025 5 13 10 0 0 0 UTCLoc.

Lemma queryWindow_tuesday :
  queryWindow tuesdayMorning 8
  = Some (mkWindow (Date 2025 5 12 0 0 0 0 UTCLoc) (Date 2025 7 13 23 59 59 0 UTCLoc)).
Proof. vm_compute. reflexivity. Qed.

Lemma queryWindow_current_week_utc_witness :
  exists w, queryWindow tuesdayMorning 8 = Some w /\
    Weekday (winStart w) = Monday /\
    Weekday (winEnd w) = Sunday /\
    unixNano (winStart w) <= unixNano (winEnd w).
Proof.
  destruct (queryWindow_current_week_utc tuesdayMorning 8)
    as (w & Hw & _ & Hmonday & _ & _ & _ & Hsunday & _ & Hle & _).
  - split; vm_compute; [discriminate|reflexivity].
  - split; vm_compute; discriminate.
  - exists w. split; [exact Hw|]. split; [exact Hmonday|]. split; [exact Hsunday|].
    apply Hle. lia.
Defined.

(** C3 as stated fails.  On a Tuesday the window starts on the Monday
    before "now", not at or after it, and it ends after "now + 8 weeks",
    not at or before; neither end depends on the configured timezone. *)
Lemma queryWindow_not_as_claimed :
  exists w, queryWindow tuesdayMorning 8 = Some w /\
    unixNano (winStart w) < unixNano tuesdayMorning /\
    unixNano tuesdayMorning + 8 * 7 * nanosPerDay < unixNano (winEnd w) /\
    ~ claimedWindow tuesdayMorning 8 w.
Proof.
  eexists. split; [apply queryWindow_tuesday|].
  split; [vm_compute; reflexivity|].
  split; [vm_compute; reflexivity|].
  intros (_ & Hstart & _). vm_compute in Hstart. apply Hstart. reflexivity.
Qed.

(** With a negative weeks-ahead count the end even precedes the start. *)
Lemma queryWindow_negative_weeks :
  exists w, queryWindow tuesdayMorning (-1) = Some w /\
    unixNano (winEnd w) < unixNano (winStart w).
Proof. eexists. split; [vm_compute; reflexivity|]. vm_compute. reflexivity. Qed.

(** ** Results, the keyring and the configuration *)

(** A Go result pair [(value, error)] with a non-nil error carrying its
    message. *)
Inductive Result (A : Type) : Type :=
| Ok (a : A)
| Err (msg : string).
Arguments Ok {A} a.
Arguments Err {A} msg.

Definition serviceName : string := "calendar-ui".
Definition clientSecretKey : string := "client-secret".
Definition tokenKey : string := "oauth-token".

(** The secrets stored for [serviceName], by key.  [keyring.Get] fails on
    a key that is absent, and so does [keyring.Delete].  [keyring.Delete]
    also fails when the backend, the secret service of the system,
    refuses the deletion, and the secret then stays where it is:
    [refusal] is the backend's error for the call, and [None] when the
    backend carries the deletion out. *)
Definition keyringDelete (refusal : option string) (key : string)
    (keyring : gmap string string) : gmap string string * option string :=
  match refusal with
  | Some e => (keyring, Some e)
  | None =>
      match keyring !! key with
      | Some _ => (delete key keyring, None)
      | None => (keyring, Some "secret not found in keyring"%string)
      end
  end.

(** The three calls of [keyring.Delete] in [parseFlags], lines 65, 71 and
    79; a run makes each of them at most once. *)
Inductive DeleteCall :=
| DeleteSecret
| DeleteTokenWithSecret
| DeleteToken.

(** A backend that refuses nothing. *)
Definition noRefusal : DeleteCall -> option string := fun _ => None.

Record Config := mkConfig {
  WeeksAhead : Z;
  MinDuration : Duration;
  TimeZone : string
}.

(** What [flag.Parse] found on the command line: a value for each flag
    that was given. *)
Record Flags := mkFlags {
  flagWeeks : option Z;
  flagMinDuration : option Duration;
  flagTimezone : option string;
  flagResetSecret : bool;
  flagResetToken : bool
}.

(** [os.Getenv]: the empty string for a variable that is not set. *)
Definition Getenv (environ : gmap string string) (name : string) : string :=
  default ""%string (environ !! name).

(** [keyring.Delete] of [key] with the message printed on success or the
    warning logged on failure. *)
Definition resetKey (refusal : option string) (key okMsg warnMsg : string)
    (st : gmap string string * list string) : gmap string string * list string :=
  let '(keyring, out) := st in
  match keyringDelete refusal key keyring with
  | (keyring', None) => (keyring', out ++ [okMsg])
  | (keyring', Some e) => (keyring', out ++ [(warnMsg ++ e)%string])
  end.

(** [parseFlags].  [refused] tells which deletions the keyring backend
    refuses, and with what error; [localTZ] is the name of the system's
    zone, or [None] when [time.LoadLocation("Local")] fails; [cmd] is
    [None] when [flag.Parse] rejects the command line.  In both cases the
    process exits and there is no configuration.  Otherwise the result is
    the configuration, the keyring after the reset flags were honoured
    and the lines printed. *)
Definition parseFlags (refused : DeleteCall -> option string)
    (localTZ : option string) (cmd : option Flags)
    (environ : gmap string string) (keyring : gmap string string)
  : option (Config * gmap string string * list string) :=
  let* localTZ := localTZ in
  let cfg := mkConfig 8 (24 * Hour) localTZ in
  let* cmd := cmd in
  let cfg := mkConfig (default (WeeksAhead cfg) (flagWeeks cmd))
                      (default (MinDuration cfg) (flagMinDuration cmd))
                      (default (TimeZone cfg) (flagTimezone cmd)) in
  let st := (keyring, []) in
  let st :=
    if flagResetSecret cmd then
      resetKey (refused DeleteTokenWithSecret) tokenKey "OAuth token has been reset."
               "Warning: Could not delete OAuth token: "
        (resetKey (refused DeleteSecret) clientSecretKey "Client secret has been reset."
                  "Warning: Could not delete client secret: " st)
    else st in
  let st :=
    if flagResetToken cmd then
      resetKey (refused DeleteToken) tokenKey "OAuth token has been reset."
               "Warning: Could not delete OAuth token: " st
    else st in
  let tz := Getenv environ "CALENDAR_TIMEZONE" in
  let cfg :=
    if decide (tz = ""%string) then cfg
    else mkConfig (WeeksAhead cfg) (MinDuration cfg) tz in
  Some (cfg, st.1, st.2).

(** C10.  When the environment variable CALENDAR_TIMEZONE holds a
    non-empty value, the configuration [parseFlags] returns has that
    value as its timezone, whatever the system's zone and whatever was
    given with [--timezone]. *)
Theorem parseFlags_env_timezone_wins
    (refused : DeleteCall -> option string)
    (localTZ : string) (cmd : Flags) (environ keyring : gmap string string)
    (tz : string) :
  environ !! "CALENDAR_TIMEZONE"%string = Some tz ->
  tz <> ""%string ->
  exists cfg keyring' out,
    parseFlags refused (Some localTZ) (Some cmd) environ keyring
    = Some (cfg, keyring', out)
    /\ TimeZone cfg = tz.
Proof.
  intros Henv Hne.
  assert (Hget : Getenv environ "CALENDAR_TIMEZONE" = tz)
    by (unfold Getenv; rewrite Henv; reflexivity).
  unfold parseFlags. rewrite Hget.
  destruct (decide (tz = ""%string)) as [Heq|_]; [contradiction|].
  do 3 eexists. split; reflexivity.
Qed.

Lemma parseFlags_env_timezone_wins_witness :
  exists cfg keyring' out,
    parseFlags noRefusal (Some "Europe/Amsterdam"%string)
               (Some (mkFlags None None (Some "America/New_York"%string) false false))
               {[ "CALENDAR_TIMEZONE"%string := "Asia/Tokyo"%string ]} ∅
    = Some (cfg, keyring', out)
    /\ TimeZone cfg = "Asia/Tokyo"%string.
Proof.
  apply (parseFlags_env_timezone_wins noRefusal "Europe/Amsterdam"
           (mkFlags None None (Some "America/New_York"%string) false false)
           {[ "CALENDAR_TIMEZONE"%string := "Asia/Tokyo"%string ]} ∅ "Asia/Tokyo").
  - reflexivity.
  - discriminate.
Defined.

(** Without the variable the flag decides, and without the flag the
    system's zone. *)
Lemma parseFlags_timezone_default
    (refused : DeleteCall -> option string)
    (localTZ : string) (cmd : Flags) (environ keyring : gmap string string) :
  Getenv environ "CALENDAR_TIMEZONE" = ""%string ->
  exists cfg keyring' out,
    parseFlags refused (Some localTZ) (Some cmd) environ keyring
    = Some (cfg, keyring', out)
    /\ TimeZone cfg = default localTZ (flagTimezone cmd).
Proof.
  intros Henv. unfold parseFlags. rewrite Henv.
  destruct (decide (""%string = ""%string)) as [_|Hne]; [|contradiction].
  do 3 eexists. split; reflexivity.
Qed.

(** ** [getToken]: the cached credential and the loopback flow *)

(** [oauth2.Token]. *)
Record Token := mkToken {
  AccessToken : string;
  RefreshToken : string;
  Expiry : Time
}.

(** The callback request as the handler reads it: the values of
    [r.URL.Query().Get("state")] and [r.URL.Query().Get("code")], empty
    when the parameter is absent. *)
Record Request := mkRequest { queryState : string; queryCode : string }.

(** What ends the wait of [getToken] (the [select] of lines 236-243): a
    callback request served by the handler, a failure of the server
    goroutine, or the cancellation of the context. *)
Inductive Arrival :=
| Callback (r : Request)
| ServerFailed (cause : string)
| Cancelled (cause : string).

(** Everything outside [main.go] that one call of [getToken] meets. *)
Record World := mkWorld {
  randRead : Result string;              (* the nonce of [generateRandomState] *)
  timeNow : Time;                        (* [time.Now()] *)
  jsonUnmarshal : string -> option Token;
  jsonMarshal : Token -> Result string;
  netListen : Result Z;                  (* the port of [net.Listen] *)
  browser : option string;               (* the error of [openBrowser], if any *)
  arrival : Arrival;
  exchange : string -> Result Token;     (* [config.Exchange(ctx, code)] *)
  keyringSet : option string             (* the error of [keyring.Set], if any *)
}.

(** The actions of [getToken] on the outside, in the order it takes
    them. *)
Inductive Effect :=
| EListen                       (* [net.Listen("tcp", "127.0.0.1:0")] *)
| ECloseListener (port : Z)     (* [listener.Close()] *)
| EServe (port : Z)             (* [go server.ListenAndServe()] *)
| EOpenBrowser (state : string) (port : Z)
| EExchange (code : string)     (* the token endpoint is called *)
| EKeyringSet (secret : string)
| EShutdown (port : Z).         (* [go server.Shutdown(...)] *)

Global Instance Effect_eq_dec : EqDecision Effect.
Proof. solve_decision. Defined.

Definition generateRandomState (w : World) : Result string := randRead w.

(** Lines 170-180: the stored token, when it is there, decodes, and
    expires after now. *)
Definition cachedToken (w : World) (keyring : gmap string string) : option Token :=
  match keyring !! tokenKey with
  | Some tokenJSON =>
      match jsonUnmarshal w tokenJSON with
      | Some token => if After (Expiry token) (timeNow w) then Some token else None
      | None => None
      end
  | None => None
  end.

(** What the handler of lines 199-213 sends, and on which channel. *)
Inductive Signal :=
| SendErr (e : string)        (* [errChan <- ...] *)
| SendCode (code : string).   (* [codeChan <- code] *)

Definition handler (state : string) (r : Request) : Signal :=
  if decide (queryState r <> state) then SendErr "invalid state parameter"
  else
    let code := queryCode r in
    if decide (code = ""%string) then SendErr "no code received"
    else SendCode code.

(** The [select] of lines 236-243. *)
Definition awaitCode (state : string) (a : Arrival) : Result string :=
  match a with
  | Callback r =>
      match handler state r with
      | SendCode authCode => Ok authCode
      | SendErr e => Err e
      end
  | ServerFailed cause => Err ("server error: " ++ cause)
  | Cancelled cause => Err cause
  end.

Record Outcome := mkOutcome {
  returned : Result Token;
  effects : list Effect;
  keyringAfter : gmap string string
}.

Definition getToken (w : World) (keyring : gmap string string) : Outcome :=
  match generateRandomState w with
  | Err e => mkOutcome (Err ("unable to generate state parameter: " ++ e)) [] keyring
  | Ok state =>
  match cachedToken w keyring with
  | Some token => mkOutcome (Ok token) [] keyring
  | None =>
  match netListen w with
  | Err e => mkOutcome (Err ("unable to get random port: " ++ e)) [EListen] keyring
  | Ok port =>
  let started := [EListen; ECloseListener port; EServe port; EOpenBrowser state port] in
  match browser w with
  | Some e => mkOutcome (Err ("unable to open browser: " ++ e)) started keyring
  | None =>
  match awaitCode state (arrival w) with
  | Err e => mkOutcome (Err e) started keyring
  | Ok authCode =>
  let exchanged := started ++ [EExchange authCode] in
  match exchange w authCode with
  | Err e => mkOutcome (Err ("unable to retrieve token from web: " ++ e)) exchanged keyring
  | Ok tok =>
  match jsonMarshal w tok with
  | Err e => mkOutcome (Err ("unable to marshal token: " ++ e)) exchanged keyring
  | Ok tokenBytes =>
  match keyringSet w with
  | Some e =>
      mkOutcome (Err ("unable to store token: " ++ e))
                (exchanged ++ [EKeyringSet tokenBytes]) keyring
  | None =>
      mkOutcome (Ok tok)
                (exchanged ++ [EKeyringSet tokenBytes; EShutdown port])
                (<[tokenKey := tokenBytes]> keyring)
  end end end end end end end end.

(** Case analysis on which effect of a trace the hypothesis [H] is
    about; effects with another constructor are ruled out. *)
Ltac trace_cases H :=
  repeat (apply elem_of_cons in H as [H|H]; [try discriminate|]);
  try (by apply elem_of_nil in H).

Section getToken_facts.

Implicit Types (w : World) (keyring : gmap string string).

Lemma cachedToken_Some w keyring token :
  cachedToken w keyring = Some token <->
  exists tokenJSON,
    keyring !! tokenKey = Some tokenJSON /\
    jsonUnmarshal w tokenJSON = Some token /\
    unixNano (timeNow w) < unixNano (Expiry token).
Proof.
  unfold cachedToken, After. split.
  - destruct (keyring !! tokenKey) as [tokenJSON|]; [|discriminate].
    destruct (jsonUnmarshal w tokenJSON) as [token'|] eqn:Hjson; [|discriminate].
    destruct (Z.ltb_spec (unixNano (timeNow w)) (unixNano (Expiry token')));
      [|discriminate].
    intros [= <-]. exists tokenJSON. auto.
  - intros (tokenJSON & -> & -> & Hlt).
    destruct (Z.ltb_spec (unixNano (timeNow w)) (unixNano (Expiry token)));
      [reflexivity|lia].
Qed.

(** The fresh flow leaves a trace: it starts by asking for a port. *)
Lemma getToken_fresh_starts_listening w keyring state :
  generateRandomState w = Ok state ->
  cachedToken w keyring = None ->
  exists rest, effects (getToken w keyring) = EListen :: rest.
Proof.
  intros Hstate Hcache. unfold getToken. rewrite Hstate, Hcache.
  repeat case_match; cbn [effects app]; eauto.
Qed.

(** The token endpoint is called with nothing but a code that the
    handler accepted. *)
Lemma getToken_exchange_code w keyring code :
  EExchange code ∈ effects (getToken w keyring) ->
  exists state,
    generateRandomState w = Ok state /\
    awaitCode state (arrival w) = Ok code.
Proof.
  unfold getToken.
  destruct (generateRandomState w) as [state|e] eqn:Hstate;
    [|cbn; intros H; by apply elem_of_nil in H].
  intros Hin. exists state. split; [reflexivity|].
  revert Hin.
  repeat case_match; cbn [effects app]; intros Hin;
    trace_cases Hin; congruence.
Qed.

Lemma handler_mismatch state r :
  queryState r <> state -> handler state r = SendErr "invalid state parameter".
Proof.
  intros Hne. unfold handler.
  destruct (decide (queryState r <> state)); [reflexivity|contradiction].
Qed.

(** The server is shut down on one path only: after the token was
    stored. *)
Lemma getToken_shutdown_iff_stored w keyring port :
  EShutdown port ∈ effects (getToken w keyring) <->
  exists tok tokenBytes,
    returned (getToken w keyring) = Ok tok /\
    netListen w = Ok port /\
    keyringAfter (getToken w keyring) = <[tokenKey := tokenBytes]> keyring /\
    EKeyringSet tokenBytes ∈ effects (getToken w keyring).
Proof.
  unfold getToken. split.
  - repeat case_match; cbn [effects returned keyringAfter app]; intros Hin;
      trace_cases Hin.
    injection Hin as ->. do 2 eexists. repeat split; try reflexivity.
    set_solver.
  - intros (tok & tokenBytes & Hret & Hport & _ & Hset). revert Hret Hset.
    repeat case_match; cbn [effects returned keyringAfter app];
      intros Hret Hset; try discriminate; trace_cases Hset.
    injection Hport as ->. set_solver.
Qed.

End getToken_facts.

(** *** A concrete world *)

Definition cachedBlob : string := "cached-token-blob".
Definition cachedTok : Token :=
  mkToken "ya29.cached" "1//refresh" (Date 2025 6 1 12 0 0 0 UTCLoc).
Definition freshTok : Token :=
  mkToken "ya29.fresh" "1//refresh" (Date 2025 5 13 11 0 0 0 UTCLoc).

(** A decoder that knows the one blob of the examples. *)
Definition sampleUnmarshal (s : string) : option Token :=
  if decide (s = cachedBlob) then Some cachedTok else None.

(** The world of a run on 2025-05-13 at 10:00 UTC in which the nonce
    generation ends as [rand] says, the wait ends with [a], and every
    other step succeeds. *)
Definition worldWith (rand : Result string) (a : Arrival) : World :=
  mkWorld rand tuesdayMorning sampleUnmarshal (fun _ => Ok "fresh-token-blob"%string)
          (Ok 43123) None a (fun _ => Ok freshTok) None.

Definition keyringWithToken : gmap string string := {[ tokenKey := cachedBlob ]}.

(** The same run a month later, when the stored token has expired. *)
Definition worldInJuly : World :=
  mkWorld (Ok "nonce-1"%string) (Date 2025 7 1 10 0 0 0 UTCLoc) sampleUnmarshal
          (fun _ => Ok "fresh-token-blob"%string)
          (Ok 43123) None (Callback (mkRequest "nonce-1" "code-1"))
          (fun _ => Ok freshTok) None.

Lemma getToken_in_july :
  getToken worldInJuly keyringWithToken
  = mkOutcome (Ok freshTok)
      [EListen; ECloseListener 43123; EServe 43123; EOpenBrowser "nonce-1" 43123;
       EExchange "code-1"; EKeyringSet "fresh-token-blob"; EShutdown 43123]
      (<[tokenKey := "fresh-token-blob"%string]> keyringWithToken).
Proof. reflexivity. Qed.

(** *** The claims on [getToken] *)

(** C1 (amended).  Provided the state nonce was generated (the code draws
    it before it looks at the keyring and fails the call otherwise),
    [getToken] returns a token at once, with no action on the outside
    and the keyring untouched, exactly when that token is stored under
    [tokenKey], decodes, and expires strictly after the current time;
    and for a stored token that decodes and has expired the call enters
    the fresh authorization flow, whose first step asks for a loopback
    port. *)
Theorem getToken_cached_iff_unexpired
    (w : World) (keyring : gmap string string) (state : string) :
  generateRandomState w = Ok state ->
  (forall token,
     getToken w keyring = mkOutcome (Ok token) [] keyring <->
     exists tokenJSON,
       keyring !! tokenKey = Some tokenJSON /\
       jsonUnmarshal w tokenJSON = Some token /\
       unixNano (timeNow w) < unixNano (Expiry token)) /\
  (forall tokenJSON token,
     keyring !! tokenKey = Some tokenJSON ->
     jsonUnmarshal w tokenJSON = Some token ->
     unixNano (Expiry token) <= unixNano (timeNow w) ->
     exists rest, effects (getToken w keyring) = EListen :: rest).
Proof.
  intros Hstate. split.
  - intros token. rewrite <- cachedToken_Some. split.
    + intros Hout.
      destruct (cachedToken w keyring) as [token'|] eqn:Hcache.
      * unfold getToken in Hout. rewrite Hstate, Hcache in Hout. congruence.
      * destruct (getToken_fresh_starts_listening w keyring state Hstate Hcache)
          as [rest Hrest].
        rewrite Hout in Hrest. discriminate.
    + intros Hcache. unfold getToken. rewrite Hstate, Hcache. reflexivity.
  - intros tokenJSON token Hget Hjson Hexp.
    apply (getToken_fresh_starts_listening w keyring state Hstate).
    unfold cachedToken, After. rewrite Hget, Hjson.
    destruct (Z.ltb_spec (unixNano (timeNow w)) (unixNano (Expiry token)));
      [lia|reflexivity].
Qed.

Lemma getToken_cached_iff_unexpired_witness :
  getToken (worldWith (Ok "nonce-1"%string) (Cancelled "unused")) keyringWithToken
  = mkOutcome (Ok cachedTok) [] keyringWithToken.
Proof.
  apply (getToken_cached_iff_unexpired
           (worldWith (Ok "nonce-1"%string) (Cancelled "unused"))
           keyringWithToken "nonce-1" eq_refl).
  exists cachedBlob. split; [reflexivity|]. split; [reflexivity|].
  vm_compute. reflexivity.
Defined.

(** C1 as stated fails.  The token below is stored, decodes and is not
    expired, yet [getToken] does not return it: the nonce is generated
    first, and when that fails the call fails. *)
Lemma getToken_cached_not_returned :
  let w := worldWith (Err "entropy source unavailable") (Cancelled "unused") in
  keyringWithToken !! tokenKey = Some cachedBlob /\
  jsonUnmarshal w cachedBlob = Some cachedTok /\
  unixNano (timeNow w) < unixNano (Expiry cachedTok) /\
  returned (getToken w keyringWithToken)
  = Err "unable to generate state parameter: entropy source unavailable" /\
  getToken w keyringWithToken <> mkOutcome (Ok cachedTok) [] keyringWithToken.
Proof.
  cbv zeta. split; [reflexivity|]. split; [reflexivity|].
  split; [vm_compute; reflexivity|]. split; [reflexivity|].
  intros H. apply (f_equal returned) in H. discriminate H.
Qed.

(** C2.  Let the request served by the handler carry a [state] that
    differs from the nonce of this attempt.  Then the handler signals
    "invalid state parameter" and no code, [getToken] never calls the
    token endpoint, and once the attempt was under way (no usable cached
    token, a port obtained, the browser launched) it fails with that
    error. *)
Theorem getToken_state_mismatch
    (w : World) (keyring : gmap string string) (state : string) (r : Request) :
  generateRandomState w = Ok state ->
  arrival w = Callback r ->
  queryState r <> state ->
  handler state r = SendErr "invalid state parameter" /\
  (forall code, EExchange code ∉ effects (getToken w keyring)) /\
  (forall port,
     cachedToken w keyring = None -> netListen w = Ok port -> browser w = None ->
     returned (getToken w keyring) = Err "invalid state parameter").
Proof.
  intros Hstate Harr Hne.
  pose proof (handler_mismatch state r Hne) as Hh.
  split; [exact Hh|]. split.
  - intros code Hin.
    destruct (getToken_exchange_code w keyring code Hin) as (state' & Hs & Hawait).
    rewrite Hstate in Hs. injection Hs as <-.
    rewrite Harr in Hawait. cbn [awaitCode] in Hawait. rewrite Hh in Hawait.
    discriminate.
  - intros port Hcache Hport Hbrowser. unfold getToken.
    rewrite Hstate, Hcache, Hport, Hbrowser, Harr. cbn [awaitCode].
    rewrite Hh. reflexivity.
Qed.

Lemma getToken_state_mismatch_witness :
  returned (getToken (worldWith (Ok "nonce-1"%string)
                                (Callback (mkRequest "forged" "code-x")))
                     ∅)
  = Err "invalid state parameter".
Proof.
  refine (proj2 (proj2 (getToken_state_mismatch
           (worldWith (Ok "nonce-1"%string) (Callback (mkRequest "forged" "code-x")))
           ∅ "nonce-1" (mkRequest "forged" "code-x") eq_refl eq_refl _))
           43123 eq_refl eq_refl eq_refl).
  discriminate.
Defined.

(** C8, at a run the code can meet: the user interrupts the program
    while it waits for the browser.  [getToken] returns the context's
    error; the server it started on the port is still serving, for the
    only shutdown in the function is on the path that stored a token. *)
Theorem getToken_cancelled_leaves_server :
  let o := getToken (worldWith (Ok "nonce-1"%string) (Cancelled "context canceled")) ∅ in
  returned o = Err "context canceled" /\
  effects o = [EListen; ECloseListener 43123; EServe 43123;
               EOpenBrowser "nonce-1" 43123] /\
  EServe 43123 ∈ effects o /\
  EShutdown 43123 ∉ effects o.
Proof.
  cbv zeta. split; [reflexivity|]. split; [reflexivity|].
  split; [vm_compute; set_solver|].
  rewrite getToken_shutdown_iff_stored. intros (tok & ? & Hret & _). discriminate Hret.
Qed.

(** Whenever [getToken] fails after it started the server, the server
    is not shut down. *)
Lemma getToken_failure_no_shutdown (w : World) (keyring : gmap string string)
    (port : Z) (e : string) :
  returned (getToken w keyring) = Err e ->
  EShutdown port ∉ effects (getToken w keyring).
Proof.
  intros Herr. rewrite getToken_shutdown_iff_stored.
  intros (tok & ? & Hret & _). congruence.
Qed.

(** ** Calendar events *)

Module Calendar.

(** [calendar.EventDateTime]: [DateTime] is an RFC 3339 timestamp and is
    empty for an all-day event, whose [Date] is then a "yyyy-mm-dd"
    date. *)
Record EventDateTime := mkEventDateTime { Date : string; DateTime : string }.

(** [calendar.Event], the fields the program reads. *)
Record Event := mkEvent {
  Summary : string;
  Start : EventDateTime;
  End_ : EventDateTime
}.

End Calendar.

Abbreviation Event := Calendar.Event.

(** *** Reading the timestamps of the examples

    The functions of the program take the two parsers of the [time]
    package as parameters.  The examples use the parsers below, which
    read a date "yyyy-mm-dd" and a timestamp "yyyy-mm-ddThh:mm:ss"
    followed by "Z" or by an offset "+hh:mm" or "-hh:mm". *)

Definition digitValue (c : ascii) : option Z :=
  let n := Z.of_N (N_of_ascii c) in
  if (48 <=? n) && (n <=? 57) then Some (n - 48) else None.

(** Exactly [n] decimal digits. *)
Fixpoint readDigits (n : nat) (acc : Z) (s : string) : option (Z * string) :=
  match n with
  | O => Some (acc, s)
  | S n' =>
      match s with
      | String c rest =>
          match digitValue c with
          | Some d => readDigits n' (acc * 10 + d) rest
          | None => None
          end
      | EmptyString => None
      end
  end.

Definition readChar (c : ascii) (s : string) : option string :=
  match s with
  | String c' rest => if decide (c = c') then Some rest else None
  | EmptyString => None
  end.

Definition daysIn (y m : Z) : Z := daysFromCivil y (m + 1) 1 - daysFromCivil y m 1.

Definition readCivil (s : string) : option (Z * Z * Z * string) :=
  let* '(y, s) := readDigits 4 0 s in
  let* s := readChar "-" s in
  let* '(m, s) := readDigits 2 0 s in
  let* s := readChar "-" s in
  let* '(d, s) := readDigits 2 0 s in
  if (1 <=? m) && (m <=? 12) && (1 <=? d) && (d <=? daysIn y m)
  then Some (y, m, d, s) else None.

Definition readClock (s : string) : option (Z * Z * Z * string) :=
  let* '(hh, s) := readDigits 2 0 s in
  let* s := readChar ":" s in
  let* '(mm, s) := readDigits 2 0 s in
  let* s := readChar ":" s in
  let* '(ss, s) := readDigits 2 0 s in
  if (hh <? 24) && (mm <? 60) && (ss <? 60) then Some (hh, mm, ss, s) else None.

Definition readZone (s : string) : option Z :=
  match s with
  | String "Z" EmptyString => Some 0
  | String sign rest =>
      let* '(hh, rest) := readDigits 2 0 rest in
      let* rest := readChar ":" rest in
      let* '(mm, rest) := readDigits 2 0 rest in
      let off := hh * 3600 + mm * 60 in
      if negb (String.eqb rest "") || negb ((hh <? 24) && (mm <? 60)) then None
      else if decide (sign = "+"%char) then Some off
      else if decide (sign = "-"%char) then Some (- off)
      else None
  | EmptyString => None
  end.

Definition sampleParseCivil (value : string) : option (Z * Z * Z) :=
  let* '(y, m, d, rest) := readCivil value in
  if String.eqb rest "" then Some (y, m, d) else None.

Definition sampleParseRFC3339 (value : string) : option Time :=
  let* '(y, m, d, rest) := readCivil value in
  let* rest := readChar "T" rest in
  let* '(hh, mm, ss, rest) := readClock rest in
  let* off := readZone rest in
  Some (Date y m d hh mm ss 0 (FixedZone off)).

Example sampleParseRFC3339_utc :
  sampleParseRFC3339 "2025-05-12T09:00:00Z" = Some (mkTime 1747040400000000000 0).
Proof. vm_compute. reflexivity. Qed.

Example sampleParseRFC3339_offset :
  sampleParseRFC3339 "2025-05-12T09:00:00+02:00" = Some (mkTime 1747033200000000000 7200).
Proof. vm_compute. reflexivity. Qed.

Example sampleParseCivil_leap :
  sampleParseCivil "2024-02-29" = Some (2024, 2, 29)
  /\ sampleParseCivil "2025-02-29" = None
  /\ sampleParseCivil "2025-5-12" = None.
Proof. vm_compute. auto. Qed.

(** ** [getOutOfOfficeEvents]: the filter on the duration *)

Section events.

(** [time.Parse(time.RFC3339, value)]. *)
Variable ParseRFC3339 : string -> option Time.
(** The year, month and day that the layout "2006-01-02" reads from
    [value]. *)
Variable ParseCivil : string -> option (Z * Z * Z).
(** [time.LoadLocation]. *)
Variable LoadLocation : string -> option Location.

(** [time.ParseInLocation("2006-01-02", value, loc)]: midnight of the
    date in [loc]. *)
Definition ParseInLocation (value : string) (loc : Location) : option Time :=
  let* '(y, m, d) := ParseCivil value in
  Some (Date y m d 0 0 0 0 loc).

(** [time.Parse("2006-01-02", value)]: midnight of the date in UTC. *)
Definition ParseDate (value : string) : option Time := ParseInLocation value UTCLoc.

(** The conversion of one end of an event in [getOutOfOfficeEvents]
    (lines 450-455 and 460-465). *)
Definition filterInstant (loc : Location) (dt : Calendar.EventDateTime) : option Time :=
  if decide (Calendar.DateTime dt <> ""%string)
  then ParseRFC3339 (Calendar.DateTime dt)
  else ParseInLocation (Calendar.Date dt) loc.

(** Lines 447-468: start and end of an event, or [None] where the loop
    goes on to the next event because one of them does not parse. *)
Definition filterBounds (loc : Location) (event : Event) : option (Time * Time) :=
  let* start := filterInstant loc (Calendar.Start event) in
  let* end_ := filterInstant loc (Calendar.End_ event) in
  Some (start, end_).

(** The loop of lines 446-473 over [events.Items]. *)
Fixpoint filterByDuration (loc : Location) (minDuration : Duration)
    (items filteredEvents : list Event) : list Event :=
  match items with
  | [] => filteredEvents
  | event :: items' =>
      match filterBounds loc event with
      | None => filterByDuration loc minDuration items' filteredEvents
      | Some (start, end_) =>
          if minDuration <=? Sub end_ start
          then filterByDuration loc minDuration items' (filteredEvents ++ [event])
          else filterByDuration loc minDuration items' filteredEvents
      end
  end.

(** [getOutOfOfficeEvents]; [listed] is the outcome of the provider's
    [Events.List] call for the calendar and the window. *)
Definition getOutOfOfficeEvents (listed : Result (list Event))
    (minDuration : Duration) (timezone : string) : Result (list Event) :=
  match listed with
  | Err e => Err ("unable to retrieve events: " ++ e)
  | Ok items =>
      match LoadLocation timezone with
      | None => Err ("invalid timezone: unknown time zone " ++ timezone)
      | Some loc => Ok (filterByDuration loc minDuration items [])
      end
  end.

(** Whether the loop keeps the event. *)
Definition longEnough (loc : Location) (minDuration : Duration) (event : Event) : bool :=
  match filterBounds loc event with
  | Some (start, end_) => minDuration <=? Sub end_ start
  | None => false
  end.

Lemma filterByDuration_filter loc minDuration items : forall filteredEvents,
  filterByDuration loc minDuration items filteredEvents
  = filteredEvents ++ List.filter (longEnough loc minDuration) items.
Proof.
  induction items as [|event items IH]; intros acc; cbn [filterByDuration List.filter].
  - by rewrite app_nil_r.
  - unfold longEnough at 1.
    destruct (filterBounds loc event) as [[start end_]|].
    + destruct (minDuration <=? Sub end_ start).
      * rewrite IH, <- app_assoc. reflexivity.
      * apply IH.
    + apply IH.
Qed.

(** C5.  When the listing succeeds and the timezone loads,
    [getOutOfOfficeEvents] returns a list in which a fetched event whose
    start and end convert to instants appears if and only if
    [end.Sub(start) >= minDuration]: an event exactly [minDuration] long
    is kept and every shorter one is absent.  For a threshold above the
    least [Duration] the comparison is that of the exact difference of
    the instants. *)
Theorem getOutOfOfficeEvents_keeps_iff_long_enough
    (items : list Event) (minDuration : Duration) (timezone : string)
    (loc : Location) :
  LoadLocation timezone = Some loc ->
  exists filteredEvents,
    getOutOfOfficeEvents (Ok items) minDuration timezone = Ok filteredEvents /\
    (forall event, event ∈ filteredEvents -> event ∈ items) /\
    (forall event start end_,
       event ∈ items ->
       filterBounds loc event = Some (start, end_) ->
       (event ∈ filteredEvents <-> minDuration <= Sub end_ start) /\
       (Sub end_ start = minDuration -> event ∈ filteredEvents) /\
       (Sub end_ start < minDuration -> event ∉ filteredEvents) /\
       (durationMin < minDuration <= durationMax ->
        (event ∈ filteredEvents <-> minDuration <= unixNano end_ - unixNano start))).
Proof.
  intros Hloc. unfold getOutOfOfficeEvents. rewrite Hloc.
  eexists. split; [reflexivity|].
  rewrite filterByDuration_filter, app_nil_l.
  split.
  - intros event Hin. apply list_elem_of_In in Hin. apply filter_In in Hin as [Hin _].
    by apply list_elem_of_In.
  - intros event start end_ Hin Hbounds.
    assert (Hiff : event ∈ List.filter (longEnough loc minDuration) items
                   <-> minDuration <= Sub end_ start).
    { rewrite list_elem_of_In, filter_In, <- list_elem_of_In.
      unfold longEnough. rewrite Hbounds. rewrite Z.leb_le. tauto. }
    split; [exact Hiff|]. split; [|split].
    + intros Heq. apply Hiff. lia.
    + intros Hlt Hin'. apply Hiff in Hin'. lia.
    + intros Hm. rewrite Hiff. apply Sub_ge_iff. exact Hm.
Qed.

(** An event one of whose ends does not parse is dropped. *)
Lemma getOutOfOfficeEvents_drops_unparsed
    (items : list Event) (minDuration : Duration) (loc : Location) (event : Event) :
  filterBounds loc event = None ->
  event ∉ filterByDuration loc minDuration items [].
Proof.
  intros Hnone. rewrite filterByDuration_filter, app_nil_l.
  rewrite list_elem_of_In, filter_In. unfold longEnough. rewrite Hnone.
  intros [_ ?]. discriminate.
Qed.

End events.

(** ** [displayCalendar]: the presence grid and the weekly blocks *)

(** [eventsByDate]: date -> person -> hasOOO.  Only [true] is ever
    stored, so the inner map is the set of its keys; a date that is not
    in the map reads as the empty set. *)
Abbreviation Grid := (gmap DateKey (gset string)).

Definition peopleOn (eventsByDate : Grid) (dateKey : DateKey) : gset string :=
  match eventsByDate !! dateKey with
  | Some people => people
  | None => ∅
  end.

(** [eventsByDate[dateKey][person] = true], lines 351-354. *)
Definition mark (dateKey : DateKey) (person : string) (eventsByDate : Grid) : Grid :=
  <[dateKey := {[person]} ∪ peopleOn eventsByDate dateKey]> eventsByDate.

(** The loop of lines 349-355:
    [for d := start; d.Before(end); d = d.AddDate(0, 0, 1)]. *)
Fixpoint markDays (fuel : nat) (person : string) (d end_ : Time)
    (eventsByDate : Grid) : option Grid :=
  match fuel with
  | O => None
  | S fuel' =>
      if Before d end_
      then markDays fuel' person (AddDate d 1) end_ (mark (FormatDate d) person eventsByDate)
      else Some eventsByDate
  end.

(** More steps than the loop can take between [start] and [end_]. *)
Definition daysFuel (start end_ : Time) : nat :=
  S (Z.to_nat ((unixNano end_ - unixNano start) / nanosPerDay + 1)).

Section display.

Variable ParseRFC3339 : string -> option Time.
Variable ParseCivil : string -> option (Z * Z * Z).

(** The conversion of one end of an event in [displayCalendar] (lines
    330-334 and 339-343). *)
Definition displayInstant (dt : Calendar.EventDateTime) : option Time :=
  if decide (Calendar.DateTime dt <> ""%string)
  then ParseRFC3339 (Calendar.DateTime dt)
  else ParseDate ParseCivil (Calendar.Date dt).

(** Lines 327-346. *)
Definition displayBounds (event : Event) : option (Time * Time) :=
  let* start := displayInstant (Calendar.Start event) in
  let* end_ := displayInstant (Calendar.End_ event) in
  Some (start, end_).

(** The body of the loop over the events of one person, lines 326-356. *)
Definition markEvent (person : string) (event : Event) (eventsByDate : Grid)
  : option Grid :=
  match displayBounds event with
  | None => Some eventsByDate
  | Some (start, end_) =>
      markDays (daysFuel start end_) person start end_ eventsByDate
  end.

Fixpoint markEvents (person : string) (events : list Event) (eventsByDate : Grid)
  : option Grid :=
  match events with
  | [] => Some eventsByDate
  | event :: events' =>
      let* eventsByDate := markEvent person event eventsByDate in
      markEvents person events' eventsByDate
  end.

(** Lines 321-357.  [entries] lists [eventsByPerson] in the order in
    which the [range] loop happens to visit it. *)
Fixpoint buildGrid (entries : list (string * list Event)) (eventsByDate : Grid)
  : option Grid :=
  match entries with
  | [] => Some eventsByDate
  | (person, events) :: entries' =>
      let* eventsByDate := markEvents person events eventsByDate in
      buildGrid entries' eventsByDate
  end.

End display.

(** *** One week block *)

Definition weekOffsets : list Z := [0; 1; 2; 3; 4; 5; 6].

(** Lines 379-386. *)
Definition peopleThisWeek (eventsByDate : Grid) (currentDate : Time) : gset string :=
  foldl (fun people i => people ∪ peopleOn eventsByDate (FormatDate (AddDate currentDate i)))
        ∅ weekOffsets.

(** Lines 388-393: the people of the week, sorted by [sort.Strings],
    that is bytewise.  The order in which the map is ranged over does
    not show in a sorted list. *)
Definition people (eventsByDate : Grid) (currentDate : Time) : list string :=
  merge_sort String.le (elements (peopleThisWeek eventsByDate currentDate)).

Definition spaces (n : nat) : string := string_of_list_ascii (repeat " "%char n).

(** [fmt.Sprintf("%-20s", s)]. *)
Definition padRight (width : nat) (s : string) : string :=
  (s ++ spaces (width - String.length s))%string.

(** Lines 400-403. *)
Definition displayName (person : string) : string :=
  if (20 <? String.length person)%nat
  then (substring 0 17 person ++ "...")%string
  else person.

(** Lines 404-413. *)
Definition personRow (eventsByDate : Grid) (currentDate : Time) (person : string) : string :=
  foldl (fun row i =>
           if decide (person ∈ peopleOn eventsByDate (FormatDate (AddDate currentDate i)))
           then (row ++ " OOO |")%string
           else (row ++ "     |")%string)
        (padRight 20 (displayName person) ++ " |")%string weekOffsets.

(** Lines 395-415. *)
Definition weekBody (eventsByDate : Grid) (currentDate : Time) : list string :=
  match people eventsByDate currentDate with
  | [] => ["No OOO Events"%string]
  | people => map (personRow eventsByDate currentDate) people
  end.

Definition monthAbbreviation (m : Z) : string :=
  nth (Z.to_nat (m - 1))
      ["Jan"; "Feb"; "Mar"; "Apr"; "May"; "Jun";
       "Jul"; "Aug"; "Sep"; "Oct"; "Nov"; "Dec"]%string ""%string.

Definition rule : string :=
  "----------------------------------------------------------------".

(** Lines 369-377. *)
Definition weekHeader (currentDate : Time) : string :=
  let weekEnd := AddDate currentDate 6 in
  (padRight 20 (monthAbbreviation (Month currentDate) ++ " " ++ pretty (Day currentDate)
                ++ " - "
                ++ monthAbbreviation (Month weekEnd) ++ " " ++ pretty (Day weekEnd))
   ++ " | Mon | Tue | Wed | Thu | Fri | Sat | Sun |")%string.

(** Lines 368-416: the lines printed for the week of [currentDate]. *)
Definition weekBlock (eventsByDate : Grid) (currentDate : Time) : list string :=
  [""%string; weekHeader currentDate; rule]
  ++ weekBody eventsByDate currentDate ++ [rule].

(** The loop of lines 367-420. *)
Fixpoint weeksLoop (fuel : nat) (eventsByDate : Grid) (currentDate timeMax : Time)
  : option (list string) :=
  match fuel with
  | O => None
  | S fuel' =>
      if Before currentDate timeMax || Equal currentDate timeMax
      then
        let* rest := weeksLoop fuel' eventsByDate (AddDate currentDate 7) timeMax in
        Some (weekBlock eventsByDate currentDate ++ rest)
      else Some []
  end.

(** [displayCalendar]: the lines printed. *)
Definition displayCalendar
    (ParseRFC3339 : string -> option Time) (ParseCivil : string -> option (Z * Z * Z))
    (entries : list (string * list Event)) (timeMin timeMax : Time)
  : option (list string) :=
  let* eventsByDate := buildGrid ParseRFC3339 ParseCivil entries ∅ in
  let* startDate := seekWeekday weekFuel Monday (-1) timeMin in
  let* blocks := weeksLoop (daysFuel startDate timeMax) eventsByDate startDate timeMax in
  Some (blocks ++ [""%string]).

Definition timedEvent (summary start end_ : string) : Event :=
  Calendar.mkEvent summary (Calendar.mkEventDateTime "" start)
                   (Calendar.mkEventDateTime "" end_).

Definition allDayEvent (summary start end_ : string) : Event :=
  Calendar.mkEvent summary (Calendar.mkEventDateTime start "")
                   (Calendar.mkEventDateTime end_ "").

(** The example of the README: two weeks, Danny away on Thursday and
    Jenny on Tuesday of the first. *)
Definition readmeEntries : list (string * list Event) :=
  [("jenny@example.com"%string,
    [timedEvent "OOO" "2025-05-13T00:00:00Z" "2025-05-14T00:00:00Z"]);
   ("danny@example.com"%string,
    [allDayEvent "OOO" "2025-05-15" "2025-05-16"])].

Example displayCalendar_readme :
  displayCalendar sampleParseRFC3339 sampleParseCivil readmeEntries
    (Date 2025 5 12 0 0 0 0 UTCLoc) (Date 2025 5 25 23 59 59 0 UTCLoc)
  = Some
      [""; "May 12 - May 18      | Mon | Tue | Wed | Thu | Fri | Sat | Sun |";
       "----------------------------------------------------------------";
       "danny@example.com    |     |     |     | OOO |     |     |     |";
       "jenny@example.com    |     | OOO |     |     |     |     |     |";
       "----------------------------------------------------------------";
       ""; "May 19 - May 25      | Mon | Tue | Wed | Thu | Fri | Sat | Sun |";
       "----------------------------------------------------------------";
       "No OOO Events";
       "----------------------------------------------------------------";
       ""]%string.
Proof. vm_compute. reflexivity. Qed.

(** *** The grid that the loops build *)

(** The dates the loop of lines 349-355 visits for an event from
    [start] to [end_]: the date of [start], of [start] plus one day, and
    so on while that instant is before [end_]. *)
Definition visitedDate (start end_ : Time) (dateKey : DateKey) : Prop :=
  exists k, 0 <= k /\ unixNano start + k * nanosPerDay < unixNano end_
            /\ dateKey = FormatDate (AddDate start k).

Lemma peopleOn_mark dateKey person eventsByDate dateKey' p :
  p ∈ peopleOn (mark dateKey person eventsByDate) dateKey' <->
  p ∈ peopleOn eventsByDate dateKey' \/ (p = person /\ dateKey' = dateKey).
Proof.
  unfold mark, peopleOn.
  destruct (decide (dateKey = dateKey')) as [<-|Hne].
  - rewrite lookup_insert_eq. cbv beta iota.
    rewrite elem_of_union, elem_of_singleton.
    split; [intros [->|H]; auto|intros [H|[-> _]]; auto].
  - rewrite lookup_insert_ne by done. split; [auto|].
    intros [H|[_ Heq]]; [exact H|congruence].
Qed.

Lemma markDays_spec person end_ fuel : forall d eventsByDate,
  (if Before d end_ then (unixNano end_ - unixNano d) / nanosPerDay + 2 else 1)
    <= Z.of_nat fuel ->
  exists eventsByDate',
    markDays fuel person d end_ eventsByDate = Some eventsByDate' /\
    forall dateKey p,
      p ∈ peopleOn eventsByDate' dateKey <->
      p ∈ peopleOn eventsByDate dateKey \/ (p = person /\ visitedDate d end_ dateKey).
Proof.
  assert (Hday : 0 < nanosPerDay) by (unfold nanosPerDay, secondsPerDay, Second; lia).
  induction fuel as [|fuel IH]; intros d g Hfuel.
  - exfalso. unfold Before in Hfuel. change (Z.of_nat 0) with 0 in Hfuel.
    destruct (Z.ltb_spec (unixNano d) (unixNano end_)) as [Hlt|Hge]; [|lia].
    assert (0 <= (unixNano end_ - unixNano d) / nanosPerDay)
      by (apply Z.div_pos; lia).
    lia.
  - cbn [markDays]. unfold Before in *.
    destruct (Z.ltb_spec (unixNano d) (unixNano end_)) as [Hlt|Hge].
    + destruct (IH (AddDate d 1) (mark (FormatDate d) person g)) as (g' & Hrun & Hspec).
      { rewrite AddDate_unixNano.
        assert (Hq : (unixNano end_ - (unixNano d + 1 * nanosPerDay)) / nanosPerDay
                     = (unixNano end_ - unixNano d) / nanosPerDay - 1).
        { replace (unixNano end_ - (unixNano d + 1 * nanosPerDay))
            with (unixNano end_ - unixNano d + (-1) * nanosPerDay) by lia.
          rewrite Z.div_add by lia. lia. }
        rewrite Hq.
        assert (0 <= (unixNano end_ - unixNano d) / nanosPerDay)
          by (apply Z.div_pos; lia).
        destruct (unixNano d + 1 * nanosPerDay <? unixNano end_); lia. }
      exists g'. split; [exact Hrun|].
      intros dateKey p. rewrite Hspec, peopleOn_mark. unfold visitedDate.
      split.
      * intros [[H|[-> ->]]|[-> (k & Hk & Hbefore & ->)]].
        -- left. exact H.
        -- right. split; [reflexivity|]. exists 0.
           rewrite AddDate_0. split; [lia|]. split; [lia|reflexivity].
        -- right. split; [reflexivity|]. exists (1 + k).
           rewrite AddDate_unixNano in Hbefore. rewrite AddDate_AddDate.
           split; [lia|]. split; [lia|reflexivity].
      * intros [H|[-> (k & Hk & Hbefore & ->)]]; [left; left; exact H|].
        destruct (Z.eq_dec k 0) as [->|Hk0].
        -- left. right. rewrite AddDate_0. split; reflexivity.
        -- right. split; [reflexivity|]. exists (k - 1).
           rewrite AddDate_unixNano, AddDate_AddDate.
           replace (1 + (k - 1)) with k by lia.
           split; [lia|]. split; [lia|reflexivity].
    + exists g. split; [reflexivity|].
      intros dateKey p. split; [auto|].
      intros [H|[_ (k & Hk & Hbefore & _)]]; [exact H|]. nia.
Qed.

Lemma daysFuel_enough start end_ :
  (if Before start end_ then (unixNano end_ - unixNano start) / nanosPerDay + 2 else 1)
    <= Z.of_nat (daysFuel start end_).
Proof.
  unfold daysFuel. rewrite Nat2Z.inj_succ. unfold Before.
  destruct (Z.ltb_spec (unixNano start) (unixNano end_)) as [Hlt|Hge]; [|lia].
  assert (0 <= (unixNano end_ - unixNano start) / nanosPerDay).
  { apply Z.div_pos; [lia|]. unfold nanosPerDay, secondsPerDay, Second. lia. }
  rewrite Z2Nat.id by lia. lia.
Qed.

Section grid_facts.

Variable ParseRFC3339 : string -> option Time.
Variable ParseCivil : string -> option (Z * Z * Z).


(** The dates on which an event is shown. *)
Definition shownOn (event : Event) (dateKey : DateKey) : Prop :=
  exists start end_,
    displayBounds ParseRFC3339 ParseCivil event = Some (start, end_) /\ visitedDate start end_ dateKey.

Lemma markEvent_spec person event eventsByDate :
  exists eventsByDate',
    markEvent ParseRFC3339 ParseCivil person event eventsByDate = Some eventsByDate' /\
    forall dateKey p,
      p ∈ peopleOn eventsByDate' dateKey <->
      p ∈ peopleOn eventsByDate dateKey \/ (p = person /\ shownOn event dateKey).
Proof.
  unfold markEvent, shownOn.
  destruct (displayBounds ParseRFC3339 ParseCivil event) as [[start end_]|].
  - destruct (markDays_spec person end_ (daysFuel start end_) start eventsByDate
                (daysFuel_enough start end_)) as (g' & Hrun & Hspec).
    exists g'. split; [exact Hrun|].
    intros dateKey p. rewrite Hspec. split.
    + intros [H|[-> Hv]]; [auto|]. right. split; [reflexivity|eauto].
    + intros [H|[-> (s' & e' & [= <- <-] & Hv)]]; auto.
  - exists eventsByDate. split; [reflexivity|].
    intros dateKey p. split; [auto|].
    intros [H|[_ (s' & e' & Hb & _)]]; [exact H|discriminate].
Qed.

Lemma markEvents_spec person events : forall eventsByDate,
  exists eventsByDate',
    markEvents ParseRFC3339 ParseCivil person events eventsByDate = Some eventsByDate' /\
    forall dateKey p,
      p ∈ peopleOn eventsByDate' dateKey <->
      p ∈ peopleOn eventsByDate dateKey \/
      (p = person /\ exists event, event ∈ events /\ shownOn event dateKey).
Proof.
  induction events as [|event events IH]; intros g.
  - exists g. split; [reflexivity|].
    intros dateKey p. split; [auto|].
    intros [H|[_ (event & Hin & _)]]; [exact H|]. by apply elem_of_nil in Hin.
  - cbn [markEvents].
    destruct (markEvent_spec person event g) as (g1 & Hrun1 & Hspec1).
    rewrite Hrun1.
    destruct (IH g1) as (g' & Hrun & Hspec).
    exists g'. split; [exact Hrun|].
    intros dateKey p. rewrite Hspec, Hspec1. split.
    + intros [[H|[-> Hs]]|[-> (ev & Hin & Hs)]]; [auto| |].
      * right. split; [reflexivity|]. exists event. split; [left|exact Hs].
      * right. split; [reflexivity|]. exists ev. split; [by right|exact Hs].
    + intros [H|[-> (ev & Hin & Hs)]]; [auto|].
      apply elem_of_cons in Hin as [->|Hin].
      * left. right. split; [reflexivity|exact Hs].
      * right. split; [reflexivity|]. exists ev. split; [exact Hin|exact Hs].
Qed.

(** [buildGrid] always returns a grid, and a person is on a date of it
    exactly when one of the person's events is shown on that date. *)
Lemma buildGrid_spec entries : forall eventsByDate,
  exists eventsByDate',
    buildGrid ParseRFC3339 ParseCivil entries eventsByDate = Some eventsByDate' /\
    forall dateKey p,
      p ∈ peopleOn eventsByDate' dateKey <->
      p ∈ peopleOn eventsByDate dateKey \/
      (exists events event,
         (p, events) ∈ entries /\ event ∈ events /\ shownOn event dateKey).
Proof.
  induction entries as [|[person events] entries IH]; intros g.
  - exists g. split; [reflexivity|].
    intros dateKey p. split; [auto|].
    intros [H|(events & event & Hin & _)]; [exact H|]. by apply elem_of_nil in Hin.
  - cbn [buildGrid].
    destruct (markEvents_spec person events g) as (g1 & Hrun1 & Hspec1).
    rewrite Hrun1.
    destruct (IH g1) as (g' & Hrun & Hspec).
    exists g'. split; [exact Hrun|].
    intros dateKey p. rewrite Hspec, Hspec1. split.
    + intros [[H|[-> (ev & Hin & Hs)]]|(evs & ev & Hin & Hev & Hs)]; [auto| |].
      * right. exists events, ev. split; [left|]. auto.
      * right. exists evs, ev. split; [by right|]. auto.
    + intros [H|(evs & ev & Hin & Hev & Hs)]; [auto|].
      apply elem_of_cons in Hin as [[= -> ->]|Hin].
      * left. right. split; [reflexivity|]. exists ev. auto.
      * right. exists evs, ev. auto.
Qed.

End grid_facts.

(** *** The people of a week *)

Lemma foldl_union_elem {A} (f : A -> gset string) (p : string) (l : list A) :
  forall acc : gset string,
    p ∈ foldl (fun people i => people ∪ f i) acc l <->
    p ∈ acc \/ exists i, i ∈ l /\ p ∈ f i.
Proof.
  induction l as [|x l IH]; intros acc; cbn [foldl].
  - split; [auto|]. intros [H|(i & Hin & _)]; [exact H|]. by apply elem_of_nil in Hin.
  - rewrite IH, elem_of_union. split.
    + intros [[H|H]|(i & Hin & Hp)]; [auto| |].
      * right. exists x. split; [left|exact H].
      * right. exists i. split; [by right|exact Hp].
    + intros [H|(i & Hin & Hp)]; [auto|].
      apply elem_of_cons in Hin as [->|Hin]; [auto|].
      right. exists i. auto.
Qed.

Lemma elem_of_weekOffsets i : i ∈ weekOffsets <-> 0 <= i < 7.
Proof.
  unfold weekOffsets. rewrite !elem_of_cons, elem_of_nil. lia.
Qed.

Lemma elem_of_peopleThisWeek eventsByDate currentDate p :
  p ∈ peopleThisWeek eventsByDate currentDate <->
  exists i, 0 <= i < 7 /\ p ∈ peopleOn eventsByDate (FormatDate (AddDate currentDate i)).
Proof.
  unfold peopleThisWeek.
  rewrite (foldl_union_elem
             (fun i => peopleOn eventsByDate (FormatDate (AddDate currentDate i)))).
  split.
  - intros [H|(i & Hin & Hp)]; [by apply not_elem_of_empty in H|].
    exists i. split; [by apply elem_of_weekOffsets|exact Hp].
  - intros (i & Hi & Hp). right. exists i. split; [by apply elem_of_weekOffsets|exact Hp].
Qed.

(** The people listed for a week: those present on one of its seven
    days, each once, in lexicographic (bytewise) order. *)
Lemma people_listed (eventsByDate : Grid) (currentDate : Time) :
  (forall p, p ∈ people eventsByDate currentDate <->
     exists i, 0 <= i < 7 /\
       p ∈ peopleOn eventsByDate (FormatDate (AddDate currentDate i))) /\
  NoDup (people eventsByDate currentDate) /\
  StronglySorted String.le (people eventsByDate currentDate).
Proof.
  pose proof (merge_sort_Permutation String.le
                (elements (peopleThisWeek eventsByDate currentDate))) as Hperm.
  fold (people eventsByDate currentDate) in Hperm.
  split; [|split].
  - intros p. rewrite Hperm, elem_of_elements. apply elem_of_peopleThisWeek.
  - rewrite Hperm. apply NoDup_elements.
  - apply StronglySorted_merge_sort; apply _.
Qed.

(** The rows of the README's first week, in alphabetical order though
    Jenny's entry comes first in the map. *)
Example people_readme :
  (let* eventsByDate := buildGrid sampleParseRFC3339 sampleParseCivil readmeEntries ∅ in
   Some (people eventsByDate (Date 2025 5 12 0 0 0 0 UTCLoc),
         people eventsByDate (Date 2025 5 19 0 0 0 0 UTCLoc)))
  = Some (["danny@example.com"; "jenny@example.com"]%string, []).
Proof. vm_compute. reflexivity. Qed.

(** *** Which dates an event is shown on *)

(** For an event that starts at midnight of its zone, as an all-day
    event does, the loop visits exactly the dates whose midnight lies in
    [[start, end_)]. *)
Lemma visitedDate_from_midnight (start end_ : Time) (dateKey : DateKey) :
  unixNano start = (civilDay start * secondsPerDay - zoneOffset start) * Second ->
  (visitedDate start end_ dateKey <->
   exists day,
     civilDay start <= day /\
     (day * secondsPerDay - zoneOffset start) * Second < unixNano end_ /\
     dateKey = civilFromDays day).
Proof.
  intros Hmid. unfold visitedDate, FormatDate, YearMonthDay. split.
  - intros (k & Hk & Hbefore & ->). exists (civilDay start + k).
    rewrite civilDay_AddDate. split; [lia|]. split; [|reflexivity].
    rewrite Hmid in Hbefore. unfold nanosPerDay in Hbefore. lia.
  - intros (day & Hday & Hbefore & ->). exists (day - civilDay start).
    rewrite civilDay_AddDate. split; [lia|]. split.
    + rewrite Hmid. unfold nanosPerDay. lia.
    + f_equal. lia.
Qed.

(** An out-of-office period from Monday 2025-05-12 17:00 to Wednesday
    2025-05-14 09:00 UTC. *)
Definition overnightEvent : Event :=
  timedEvent "Out of office" "2025-05-12T17:00:00Z" "2025-05-14T09:00:00Z".

(** C6, at an event the provider can return.  The event above lasts 40
    hours, so the default filter keeps it, and it covers the first nine
    hours of Wednesday the 14th: midnight of that day lies in
    [[start, end)].  The grid has Amy on the 12th and on the 13th and
    not on the 14th, because the loop looks at 17:00 of each day and
    17:00 of the 14th is after the end. *)
Theorem buildGrid_misses_last_day :
  longEnough sampleParseRFC3339 sampleParseCivil UTCLoc (24 * Hour) overnightEvent = true /\
  (let* '(start, end_) := displayBounds sampleParseRFC3339 sampleParseCivil overnightEvent in
   Some (Before start (Date 2025 5 14 0 0 0 0 UTCLoc),
         Before (Date 2025 5 14 0 0 0 0 UTCLoc) end_))
  = Some (true, true) /\
  (let* eventsByDate :=
     buildGrid sampleParseRFC3339 sampleParseCivil
               [("amy@example.com"%string, [overnightEvent])] ∅ in
   Some (elements (peopleOn eventsByDate (2025, 5, 12)),
         elements (peopleOn eventsByDate (2025, 5, 13)),
         elements (peopleOn eventsByDate (2025, 5, 14))))
  = Some (["amy@example.com"%string], ["amy@example.com"%string], []).
Proof. split; [|split]; vm_compute; reflexivity. Qed.

(** The same period given as all-day dates is shown on each of its
    days. *)
Example buildGrid_all_day :
  (let* eventsByDate :=
     buildGrid sampleParseRFC3339 sampleParseCivil
               [("amy@example.com"%string, [allDayEvent "OOO" "2025-05-12" "2025-05-15"])] ∅ in
   Some (elements (peopleOn eventsByDate (2025, 5, 12)),
         elements (peopleOn eventsByDate (2025, 5, 14)),
         elements (peopleOn eventsByDate (2025, 5, 15))))
  = Some (["amy@example.com"%string], ["amy@example.com"%string], []).
Proof. vm_compute. reflexivity. Qed.

(** ** The two conversions of an event to instants *)

Section conversions.

Variable ParseRFC3339 : string -> option Time.
Variable ParseCivil : string -> option (Z * Z * Z).

Definition isTimed (dt : Calendar.EventDateTime) : Prop :=
  Calendar.DateTime dt <> ""%string.

(** The two conversions side by side.  A timed event is converted in
    the same way where the events are filtered by duration and where the
    grid is built: both ends are parsed from their timestamps.  An
    all-day event is anchored at midnight of its dates in the configured
    timezone where the events are filtered, and at midnight UTC where
    the grid is built ([displayCalendar] is not given the timezone); the
    two instants differ by the offset of the zone at that midnight. *)
Lemma filter_and_display_conversions (loc : Location) (event : Event) :
  (isTimed (Calendar.Start event) -> isTimed (Calendar.End_ event) ->
   filterBounds ParseRFC3339 ParseCivil loc event
   = displayBounds ParseRFC3339 ParseCivil event /\
   filterInstant ParseRFC3339 ParseCivil loc (Calendar.Start event)
   = ParseRFC3339 (Calendar.DateTime (Calendar.Start event)) /\
   filterInstant ParseRFC3339 ParseCivil loc (Calendar.End_ event)
   = ParseRFC3339 (Calendar.DateTime (Calendar.End_ event))) /\
  (forall y m d y' m' d',
     ~ isTimed (Calendar.Start event) -> ~ isTimed (Calendar.End_ event) ->
     ParseCivil (Calendar.Date (Calendar.Start event)) = Some (y, m, d) ->
     ParseCivil (Calendar.Date (Calendar.End_ event)) = Some (y', m', d') ->
     filterBounds ParseRFC3339 ParseCivil loc event
     = Some (Date y m d 0 0 0 0 loc, Date y' m' d' 0 0 0 0 loc) /\
     displayBounds ParseRFC3339 ParseCivil event
     = Some (Date y m d 0 0 0 0 UTCLoc, Date y' m' d' 0 0 0 0 UTCLoc) /\
     unixNano (Date y m d 0 0 0 0 loc)
     = unixNano (Date y m d 0 0 0 0 UTCLoc)
       - loc (daysFromCivil y m d * secondsPerDay) * Second).
Proof.
  unfold isTimed, filterBounds, displayBounds, filterInstant, displayInstant,
    ParseDate, ParseInLocation.
  split.
  - intros Hs He.
    destruct (decide (Calendar.DateTime (Calendar.Start event) <> ""%string));
      [|contradiction].
    destruct (decide (Calendar.DateTime (Calendar.End_ event) <> ""%string));
      [|contradiction].
    auto.
  - intros y m d y' m' d' Hs He Hstart Hend.
    destruct (decide (Calendar.DateTime (Calendar.Start event) <> ""%string));
      [contradiction|].
    destruct (decide (Calendar.DateTime (Calendar.End_ event) <> ""%string));
      [contradiction|].
    rewrite Hstart, Hend. split; [reflexivity|]. split; [reflexivity|].
    unfold Date, UTCLoc. cbn [unixNano].
    replace (daysFromCivil y m d * secondsPerDay + 0 * 3600 + 0 * 60 + 0)
      with (daysFromCivil y m d * secondsPerDay) by lia.
    lia.
Qed.

End conversions.

(** Europe/Amsterdam in 2025: one hour east of UTC, two from 02:00 on
    30 March until 03:00 on 26 October by the wall clock. *)
Definition amsterdam2025 : Location := fun wall =>
  if (daysFromCivil 2025 3 30 * secondsPerDay + 2 * 3600 <=? wall)
     && (wall <? daysFromCivil 2025 10 26 * secondsPerDay + 3 * 3600)
  then 7200 else 3600.

Definition sampleLoadLocation (name : string) : option Location :=
  if decide (name = "UTC"%string) then Some UTCLoc
  else if decide (name = "Europe/Amsterdam"%string) then Some amsterdam2025
  else None.

(** Two days off around the change to summer time. *)
Definition springWeekend : Event := allDayEvent "Out of office" "2025-03-29" "2025-03-31".

Lemma filter_and_display_conversions_witness :
  filterBounds sampleParseRFC3339 sampleParseCivil amsterdam2025 springWeekend
  = Some (Date 2025 3 29 0 0 0 0 amsterdam2025, Date 2025 3 31 0 0 0 0 amsterdam2025).
Proof.
  refine (proj1 (proj2 (filter_and_display_conversions
            sampleParseRFC3339 sampleParseCivil amsterdam2025 springWeekend)
            2025 3 29 2025 3 31 _ _ eq_refl eq_refl)).
  - intros H. apply H. reflexivity.
  - intros H. apply H. reflexivity.
Defined.

(** C4, at an event the provider can return, with [--timezone
    Europe/Amsterdam].  The conversion used for the grid is not the one
    used for the filter, and it does not anchor the all-day event in the
    configured timezone, as the filter does and as the comments of lines
    453 and 463 say ("use the start of the day in the configured
    timezone"): the filter takes 2025-03-28T23:00:00Z, midnight in
    Amsterdam, as the start and measures 47 hours, while the grid is
    built from 2025-03-29T00:00:00Z, midnight UTC, and from 48 hours. *)
Theorem filter_and_display_conversions_differ :
  filterBounds sampleParseRFC3339 sampleParseCivil amsterdam2025 springWeekend
  <> displayBounds sampleParseRFC3339 sampleParseCivil springWeekend /\
  (let* '(start, end_) :=
     filterBounds sampleParseRFC3339 sampleParseCivil amsterdam2025 springWeekend in
   Some (unixNano start, Sub end_ start))
  = Some (unixNano (Date 2025 3 28 23 0 0 0 UTCLoc), 47 * Hour) /\
  (let* '(start, end_) :=
     displayBounds sampleParseRFC3339 sampleParseCivil springWeekend in
   Some (unixNano start, Sub end_ start))
  = Some (unixNano (Date 2025 3 29 0 0 0 0 UTCLoc), 48 * Hour).
Proof.
  split; [|split; vm_compute; reflexivity].
  intros H. vm_compute in H. discriminate H.
Qed.

(** *** The filter on examples *)

Definition thirtyHours : Event :=
  timedEvent "short" "2025-05-12T09:00:00Z" "2025-05-13T15:00:00Z".
Definition seventyTwoHours : Event :=
  timedEvent "long" "2025-05-19T00:00:00Z" "2025-05-22T00:00:00Z".
Definition fortyEightHours : Event :=
  allDayEvent "exact" "2025-05-26" "2025-05-28".
Definition brokenEvent : Event :=
  timedEvent "broken" "yesterday" "2025-05-22T00:00:00Z".

(** With a minimum of 48 hours the 30-hour event is dropped, the
    72-hour event and the event of exactly 48 hours are kept, and so is
    their order; the event that does not parse is dropped. *)
Example getOutOfOfficeEvents_48h :
  getOutOfOfficeEvents sampleParseRFC3339 sampleParseCivil sampleLoadLocation
    (Ok [thirtyHours; brokenEvent; seventyTwoHours; fortyEightHours]) (48 * Hour) "UTC"
  = Ok [seventyTwoHours; fortyEightHours].
Proof. vm_compute. reflexivity. Qed.

Lemma getOutOfOfficeEvents_keeps_iff_long_enough_witness :
  exists filteredEvents,
    getOutOfOfficeEvents sampleParseRFC3339 sampleParseCivil sampleLoadLocation
      (Ok [thirtyHours; brokenEvent; seventyTwoHours; fortyEightHours]) (48 * Hour) "UTC"
    = Ok filteredEvents /\
    fortyEightHours ∈ filteredEvents /\ thirtyHours ∉ filteredEvents.
Proof.
  destruct (getOutOfOfficeEvents_keeps_iff_long_enough
              sampleParseRFC3339 sampleParseCivil sampleLoadLocation
              [thirtyHours; brokenEvent; seventyTwoHours; fortyEightHours]
              (48 * Hour) "UTC" UTCLoc eq_refl)
    as (filteredEvents & Hget & _ & Hkeep).
  exists filteredEvents. split; [exact Hget|]. split.
  - assert (Hb : filterBounds sampleParseRFC3339 sampleParseCivil UTCLoc fortyEightHours
                 = Some (Date 2025 5 26 0 0 0 0 UTCLoc, Date 2025 5 28 0 0 0 0 UTCLoc))
      by (vm_compute; reflexivity).
    destruct (Hkeep fortyEightHours _ _ ltac:(do 3 right; left) Hb) as (_ & Hexact & _).
    apply Hexact. vm_compute. reflexivity.
  - assert (Hb : filterBounds sampleParseRFC3339 sampleParseCivil UTCLoc thirtyHours
                 = Some (Date 2025 5 12 9 0 0 0 UTCLoc, Date 2025 5 13 15 0 0 0 UTCLoc))
      by (vm_compute; reflexivity).
    destruct (Hkeep thirtyHours _ _ ltac:(left) Hb) as (_ & _ & Hshort & _).
    apply Hshort. vm_compute. reflexivity.
Defined.

(** ** [displayCalendar] prints week after week *)

(** The first days of [weeks] consecutive weeks from [currentDate] on. *)
Fixpoint weekStarts (currentDate : Time) (weeks : nat) : list Time :=
  match weeks with
  | O => []
  | S weeks' => currentDate :: weekStarts (AddDate currentDate 7) weeks'
  end.

Lemma elem_of_weekStarts weeks : forall currentDate t,
  t ∈ weekStarts currentDate weeks ->
  exists j, 0 <= j < Z.of_nat weeks /\ t = AddDate currentDate (7 * j).
Proof.
  induction weeks as [|weeks IH]; intros cur t Hin; cbn [weekStarts] in Hin.
  - by apply elem_of_nil in Hin.
  - apply elem_of_cons in Hin as [->|Hin].
    + exists 0. split; [lia|]. change (7 * 0) with 0. by rewrite AddDate_0.
    + destruct (IH _ _ Hin) as (j & Hj & ->). exists (1 + j). split; [lia|].
      rewrite AddDate_AddDate. replace (7 + 7 * j) with (7 * (1 + j)) by lia.
      reflexivity.
Qed.

Lemma weeksLoop_blocks eventsByDate timeMax fuel : forall currentDate,
  (if Before currentDate timeMax || Equal currentDate timeMax
   then (unixNano timeMax - unixNano currentDate) / nanosPerDay + 2 else 1)
    <= Z.of_nat fuel ->
  exists weeks : nat,
    weeksLoop fuel eventsByDate currentDate timeMax
    = Some (flat_map (weekBlock eventsByDate) (weekStarts currentDate weeks)).
Proof.
  assert (Hday : 0 < nanosPerDay) by (unfold nanosPerDay, secondsPerDay, Second; lia).
  induction fuel as [|fuel IH]; intros cur Hfuel.
  - exfalso. change (Z.of_nat 0) with 0 in Hfuel. unfold Before, Equal in Hfuel.
    destruct (Z.ltb_spec (unixNano cur) (unixNano timeMax));
      destruct (Z.eqb_spec (unixNano cur) (unixNano timeMax));
      cbn [orb] in Hfuel; try lia;
      assert (0 <= (unixNano timeMax - unixNano cur) / nanosPerDay)
        by (apply Z.div_pos; lia); lia.
  - cbn [weeksLoop].
    destruct (Before cur timeMax || Equal cur timeMax) eqn:Hcond.
    + assert (Hle : unixNano cur <= unixNano timeMax).
      { unfold Before, Equal in Hcond. apply orb_true_iff in Hcond as [H|H].
        - apply Z.ltb_lt in H. lia.
        - apply Z.eqb_eq in H. lia. }
      assert (Hq : 0 <= (unixNano timeMax - unixNano cur) / nanosPerDay)
        by (apply Z.div_pos; lia).
      destruct (IH (AddDate cur 7)) as (weeks & Hrest).
      { unfold Before, Equal. rewrite AddDate_unixNano.
        assert ((unixNano timeMax - (unixNano cur + 7 * nanosPerDay)) / nanosPerDay
                = (unixNano timeMax - unixNano cur) / nanosPerDay - 7) as ->.
        { replace (unixNano timeMax - (unixNano cur + 7 * nanosPerDay))
            with (unixNano timeMax - unixNano cur + (-7) * nanosPerDay) by lia.
          rewrite Z.div_add by lia. lia. }
        destruct ((unixNano cur + 7 * nanosPerDay <? unixNano timeMax)
                  || (unixNano cur + 7 * nanosPerDay =? unixNano timeMax)); lia. }
      rewrite Hrest. exists (S weeks). reflexivity.
    + exists O. reflexivity.
Qed.

Lemma daysFuel_enough_weeks start timeMax :
  (if Before start timeMax || Equal start timeMax
   then (unixNano timeMax - unixNano start) / nanosPerDay + 2 else 1)
    <= Z.of_nat (daysFuel start timeMax).
Proof.
  unfold daysFuel. rewrite Nat2Z.inj_succ. unfold Before, Equal.
  assert (Hday : 0 < nanosPerDay) by (unfold nanosPerDay, secondsPerDay, Second; lia).
  destruct (Z.ltb_spec (unixNano start) (unixNano timeMax));
    destruct (Z.eqb_spec (unixNano start) (unixNano timeMax));
    cbn [orb]; try lia;
    assert (0 <= (unixNano timeMax - unixNano start) / nanosPerDay)
      by (apply Z.div_pos; lia);
    rewrite Z2Nat.id by lia; lia.
Qed.

(** [displayCalendar] always prints: the grid is built, the Monday of
    the first week is found, and the blocks of consecutive weeks follow
    one another, closed by an empty line. *)
Lemma displayCalendar_prints
    (ParseRFC3339 : string -> option Time) (ParseCivil : string -> option (Z * Z * Z))
    (entries : list (string * list Event)) (timeMin timeMax : Time) :
  exists eventsByDate startDate (weeks : nat),
    buildGrid ParseRFC3339 ParseCivil entries ∅ = Some eventsByDate /\
    startDate = AddDate timeMin (- ((Weekday timeMin - Monday) mod 7)) /\
    Weekday startDate = Monday /\
    displayCalendar ParseRFC3339 ParseCivil entries timeMin timeMax
    = Some (flat_map (weekBlock eventsByDate) (weekStarts startDate weeks)
            ++ [""%string]).
Proof.
  destruct (buildGrid_spec ParseRFC3339 ParseCivil entries ∅) as (g & Hgrid & _).
  set (startDate := AddDate timeMin (- ((Weekday timeMin - Monday) mod 7))).
  assert (Hseek : seekWeekday weekFuel Monday (-1) timeMin = Some startDate).
  { apply seekWeekday_back; [unfold Monday; lia|].
    pose proof (Z.mod_pos_bound (Weekday timeMin - Monday) 7 ltac:(lia)).
    unfold weekFuel. change (Z.of_nat 7) with 7. lia. }
  destruct (weeksLoop_blocks g timeMax (daysFuel startDate timeMax) startDate)
    as (weeks & Hloop).
  { apply daysFuel_enough_weeks. }
  exists g, startDate, weeks. split; [exact Hgrid|]. split; [reflexivity|]. split.
  - subst startDate. rewrite Weekday_AddDate. pose proof (Weekday_range timeMin) as Hr.
    revert Hr. unfold Monday. generalize (Weekday timeMin). intros wd Hr.
    Z.to_euclidean_division_equations. lia.
  - unfold displayCalendar. rewrite Hgrid, Hseek, Hloop. reflexivity.
Qed.

(** *** The rows of a block *)

Lemma string_append_assoc (a b c : string) : ((a ++ b) ++ c = a ++ (b ++ c))%string.
Proof.
  induction a as [|ch a IH]; [reflexivity|].
  change (String ch ((a ++ b) ++ c) = String ch (a ++ (b ++ c)))%string.
  by rewrite IH.
Qed.

(** [fmt.Printf("%-20s", s)] pads to a width counted in runes, [len] and
    the slice [person[:17]] count bytes; for a name without a byte above
    127 the two agree. *)
Definition isASCII (s : string) : bool :=
  forallb (fun c => (N_of_ascii c <? 128)%N) (list_ascii_of_string s).

(** The marker of one day in a row. *)
Definition dayMarker (away : bool) : string :=
  if away then " OOO |"%string else "     |"%string.

(** The row of a person as the specification describes it: the
    identifier, cut to 17 bytes and an ellipsis when it is longer than
    the column of 20 bytes, then [pad] spaces that fill the column, then
    one marker for each day of the week from Monday to Sunday. *)
Definition describedRow (pad : nat) (away : Z -> bool) (person : string) : string :=
  let name := if (20 <? String.length person)%nat
              then (substring 0 17 person ++ "...")%string else person in
  (name ++ spaces pad ++ " |"
   ++ dayMarker (away 0) ++ dayMarker (away 1) ++ dayMarker (away 2)
   ++ dayMarker (away 3) ++ dayMarker (away 4) ++ dayMarker (away 5)
   ++ dayMarker (away 6))%string.

Lemma length_substring_17 : forall s : string,
  (17 <= String.length s)%nat -> String.length (substring 0 17 s) = 17%nat.
Proof.
  assert (H : forall n (s : string),
             (n <= String.length s)%nat -> String.length (substring 0 n s) = n).
  { induction n as [|n IH]; intros s Hlen.
    - destruct s; reflexivity.
    - destruct s as [|c s]; cbn [String.length] in Hlen; [lia|].
      cbn [substring String.length]. rewrite IH; [reflexivity|lia]. }
  intros s. apply H.
Qed.

Lemma length_append_17 (s : string) :
  String.length (s ++ "...") = (String.length s + 3)%nat.
Proof.
  induction s as [|c s IH]; [reflexivity|].
  change (S (String.length (s ++ "...")) = S (String.length s + 3)). by rewrite IH.
Qed.

Lemma personRow_described eventsByDate currentDate person :
  exists pad,
    personRow eventsByDate currentDate person
    = describedRow pad
        (fun i => bool_decide
                    (person ∈ peopleOn eventsByDate (FormatDate (AddDate currentDate i))))
        person /\
    pad = (20 - String.length person)%nat.
Proof.
  assert (Hcell : forall (row : string) (P : Prop) `{Decision P},
             (if decide P then (row ++ " OOO |")%string else (row ++ "     |")%string)
             = (row ++ dayMarker (bool_decide P))%string).
  { intros row P HP. rewrite (bool_decide_decide P). destruct (decide P); reflexivity. }
  exists (20 - String.length person)%nat. split; [|reflexivity].
  unfold personRow, describedRow, weekOffsets, padRight, displayName.
  cbn [foldl]. cbv zeta.
  rewrite !Hcell, !string_append_assoc.
  destruct (Nat.ltb_spec 20 (String.length person)) as [Hlong|Hshort]; [|reflexivity].
  rewrite length_append_17, length_substring_17 by lia.
  replace (20 - String.length person)%nat with (20 - (17 + 3))%nat by lia.
  reflexivity.
Qed.

(** C9.  [displayCalendar] builds the grid and prints one block for
    each of a sequence of Mondays.  In the block of a week the people
    listed are exactly those the grid has on one of its seven days, each
    once, in lexicographic (bytewise) order; between the header and the
    closing rule the block has the line "No OOO Events" when there is
    nobody, and otherwise one row per listed person, in that order,
    which begins with the person's name and marks the days on which the
    grid has the person.  (The column of the name is filled with
    [20 - len] spaces for an ASCII name; for other names [fmt] counts
    runes and the number of spaces is left open.) *)
Theorem displayCalendar_lists_sorted_people
    (ParseRFC3339 : string -> option Time) (ParseCivil : string -> option (Z * Z * Z))
    (entries : list (string * list Event)) (timeMin timeMax : Time) :
  exists (eventsByDate : Grid) (mondays : list Time),
    buildGrid ParseRFC3339 ParseCivil entries ∅ = Some eventsByDate /\
    displayCalendar ParseRFC3339 ParseCivil entries timeMin timeMax
    = Some (flat_map (weekBlock eventsByDate) mondays ++ [""%string]) /\
    (forall monday, monday ∈ mondays -> Weekday monday = Monday) /\
    forall monday, exists (persons rows : list string),
      (forall p, p ∈ persons <->
         exists i, 0 <= i < 7 /\
           p ∈ peopleOn eventsByDate (FormatDate (AddDate monday i))) /\
      NoDup persons /\
      StronglySorted String.le persons /\
      weekBlock eventsByDate monday
      = [""%string; weekHeader monday; rule] ++ rows ++ [rule] /\
      (persons = [] -> rows = ["No OOO Events"%string]) /\
      (persons <> [] ->
       Forall2 (fun p row =>
                  exists pad,
                    row = describedRow pad
                            (fun i => bool_decide
                               (p ∈ peopleOn eventsByDate
                                      (FormatDate (AddDate monday i))))
                            p /\
                    (isASCII p = true -> pad = (20 - String.length p)%nat))
               persons rows).
Proof.
  destruct (displayCalendar_prints ParseRFC3339 ParseCivil entries timeMin timeMax)
    as (g & startDate & weeks & Hgrid & _ & Hmonday & Hprint).
  exists g, (weekStarts startDate weeks).
  split; [exact Hgrid|]. split; [exact Hprint|]. split.
  - intros monday Hin. apply elem_of_weekStarts in Hin as (j & _ & ->).
    rewrite Weekday_AddDate, Hmonday. unfold Monday.
    Z.to_euclidean_division_equations. lia.
  - intros monday. exists (people g monday), (weekBody g monday).
    destruct (people_listed g monday) as (Hmem & Hnodup & Hsorted).
    split; [exact Hmem|]. split; [exact Hnodup|]. split; [exact Hsorted|].
    split; [reflexivity|]. unfold weekBody.
    destruct (people g monday) as [|person rest]; [split; [reflexivity|congruence]|].
    split; [discriminate|]. intros _.
    apply Forall2_fmap_r, Forall_Forall2_diag, Forall_forall.
    intros p _. cbn [compose].
    destruct (personRow_described g monday p) as (pad & Hrow & Hpad).
    exists pad. split; [exact Hrow|]. intros _. exact Hpad.
Qed.

(** ** [main]: the fan-out over the members of the group *)

Section fanout.

Variable ParseRFC3339 : string -> option Time.
Variable ParseCivil : string -> option (Z * Z * Z).
Variable LoadLocation : string -> option Location.
(** The provider's answer to [Events.List] for each calendar. *)
Variable listEvents : string -> Result (list Event).
Variable cfg : Config.

(** What the goroutine of a member computes, line 558. *)
Definition fetch (email : string) : Result (list Event) :=
  getOutOfOfficeEvents ParseRFC3339 ParseCivil LoadLocation
    (listEvents email) (MinDuration cfg) (TimeZone cfg).

(** The state shared by the goroutines of lines 554-567: the members
    whose goroutine has not finished (the count of the [WaitGroup]), the
    map guarded by the mutex, and the log. *)
Record Collecting := mkCollecting {
  running : gset string;
  eventsByPerson : gmap string (list Event);
  logged : list string
}.

(** One goroutine finishes.  Its write to the map happens with the
    mutex held, so the goroutines take effect one after the other, in
    any order. *)
Inductive finishes : Collecting -> Collecting -> Prop :=
| finishes_stored st email events :
    email ∈ running st ->
    fetch email = Ok events ->
    finishes st (mkCollecting (running st ∖ {[email]})
                              (<[email := events]> (eventsByPerson st))
                              (logged st))
| finishes_failed st email e :
    email ∈ running st ->
    fetch email = Err e ->
    finishes st (mkCollecting (running st ∖ {[email]})
                              (eventsByPerson st)
                              (logged st ++ [("Error getting OOO events for " ++ email
                                              ++ ": " ++ e)%string])).

(** After the loop of lines 554-567 one goroutine runs for each
    calendar of the free/busy answer. *)
Definition spawned (calendars : gset string) : Collecting :=
  mkCollecting calendars ∅ [].

(** [wg.Wait()] returns in [st]: every goroutine has finished.  The map
    of such a state is the one [main] hands to [displayCalendar]. *)
Definition joined (calendars : gset string) (st : Collecting) : Prop :=
  rtc finishes (spawned calendars) st /\ running st = ∅.

Definition stored (email : string) : option (list Event) :=
  match fetch email with
  | Ok events => Some events
  | Err _ => None
  end.

Lemma finishes_invariant calendars st :
  rtc finishes (spawned calendars) st ->
  running st ⊆ calendars /\
  forall email,
    eventsByPerson st !! email
    = if decide (email ∈ calendars ∖ running st) then stored email else None.
Proof.
  revert st. apply rtc_ind_r.
  - cbn [spawned running eventsByPerson]. split; [done|].
    intros email. rewrite lookup_empty.
    destruct (decide (email ∈ calendars ∖ calendars)) as [Hin|_]; [set_solver|done].
  - intros st st' Hrun Hstep [Hsub Hmap].
    destruct Hstep as [st email events Hin Hfetch|st email e Hin Hfetch];
      cbn [running eventsByPerson].
    + split; [set_solver|]. intros email'.
      destruct (decide (email = email')) as [<-|Hne].
      * rewrite lookup_insert_eq.
        destruct (decide (email ∈ calendars ∖ (running st ∖ {[email]}))) as [_|Hout];
          [|set_solver].
        unfold stored. by rewrite Hfetch.
      * rewrite lookup_insert_ne by done. rewrite Hmap.
        destruct (decide (email' ∈ calendars ∖ running st));
          destruct (decide (email' ∈ calendars ∖ (running st ∖ {[email]})));
          try done; set_solver.
    + split; [set_solver|]. intros email'. rewrite Hmap.
      destruct (decide (email = email')) as [<-|Hne].
      * destruct (decide (email ∈ calendars ∖ running st)) as [Hout|_]; [set_solver|].
        destruct (decide (email ∈ calendars ∖ (running st ∖ {[email]}))) as [_|Hout];
          [|set_solver].
        unfold stored. by rewrite Hfetch.
      * destruct (decide (email' ∈ calendars ∖ running st));
          destruct (decide (email' ∈ calendars ∖ (running st ∖ {[email]})));
          try done; set_solver.
Qed.

(** Whatever the order in which the goroutines finish, the map after
    the join holds the events of exactly the members whose fetch
    succeeded. *)
Lemma joined_lookup calendars st email :
  joined calendars st ->
  eventsByPerson st !! email
  = if decide (email ∈ calendars) then stored email else None.
Proof.
  intros [Hrun Hdone].
  destruct (finishes_invariant calendars st Hrun) as [_ Hmap].
  rewrite Hmap, Hdone.
  destruct (decide (email ∈ calendars ∖ ∅)); destruct (decide (email ∈ calendars));
    try done; set_solver.
Qed.

(** The join is reached: every goroutine finishes, whether its fetch
    succeeds or fails. *)
Lemma finishes_all (todo : gset string) : forall st,
  running st = todo -> exists st', rtc finishes st st' /\ running st' = ∅.
Proof.
  induction todo as [|email todo Hfresh IH] using set_ind_L; intros st Hrunning.
  - exists st. split; [apply rtc_refl|exact Hrunning].
  - assert (Hin : email ∈ running st) by set_solver.
    destruct (fetch email) as [events|e] eqn:Hfetch.
    + destruct (IH (mkCollecting (running st ∖ {[email]})
                                 (<[email := events]> (eventsByPerson st)) (logged st)))
        as (st' & Hrun & Hdone); [cbn; set_solver|].
      exists st'. split; [|exact Hdone].
      eapply rtc_l; [|exact Hrun]. by apply finishes_stored.
    + destruct (IH (mkCollecting (running st ∖ {[email]}) (eventsByPerson st)
                      (logged st ++ [("Error getting OOO events for " ++ email
                                      ++ ": " ++ e)%string])))
        as (st' & Hrun & Hdone); [cbn; set_solver|].
      exists st'. split; [|exact Hdone].
      eapply rtc_l; [|exact Hrun]. by apply finishes_failed.
Qed.

(** C7.  Let the fetch of exactly one member fail and those of the
    others succeed.  Then the goroutines can all finish, and in every
    state in which [wg.Wait()] returns (no goroutine is still running)
    the map holds the events of each other member and nothing for the
    member whose fetch failed. *)
Theorem fanout_one_failure (calendars : gset string) (failing : string) (e : string) :
  failing ∈ calendars ->
  fetch failing = Err e ->
  (forall email, email ∈ calendars -> email <> failing ->
     exists events, fetch email = Ok events) ->
  (exists st, joined calendars st) /\
  (forall st, joined calendars st ->
     running st = ∅ /\
     eventsByPerson st !! failing = None /\
     dom (eventsByPerson st) = calendars ∖ {[failing]} /\
     (forall email events,
        email ∈ calendars -> fetch email = Ok events ->
        eventsByPerson st !! email = Some events)).
Proof.
  intros Hin Hfail Hothers. split.
  - destruct (finishes_all calendars (spawned calendars) eq_refl) as (st & Hrun & Hdone).
    exists st. split; assumption.
  - intros st Hjoined.
    split; [apply Hjoined|]. split; [|split].
    + rewrite (joined_lookup calendars st failing Hjoined).
      destruct (decide (failing ∈ calendars)); [|done].
      unfold stored. by rewrite Hfail.
    + apply set_eq. intros email. rewrite elem_of_dom, elem_of_difference, elem_of_singleton.
      rewrite (joined_lookup calendars st email Hjoined). unfold stored.
      destruct (decide (email ∈ calendars)) as [Hmem|Hmem].
      * destruct (decide (email = failing)) as [->|Hne].
        -- rewrite Hfail. split; [intros [? ?]; discriminate|tauto].
        -- destruct (Hothers email Hmem Hne) as [events ->]. split; [tauto|eauto].
      * split; [intros [? ?]; discriminate|tauto].
    + intros email events Hmem Hfetch.
      rewrite (joined_lookup calendars st email Hjoined).
      destruct (decide (email ∈ calendars)); [|contradiction].
      unfold stored. by rewrite Hfetch.
Qed.

(** What [main] prints once the token is there and the free/busy query
    has named the calendars: the window is computed, the goroutines are
    joined, and only then the map is displayed, ranged over in some
    order [entries]. *)
Definition mainPrints (timeNow : Time) (calendars : gset string)
    (lines : list string) : Prop :=
  exists w st entries,
    queryWindow timeNow (WeeksAhead cfg) = Some w /\
    joined calendars st /\
    entries ≡ₚ map_to_list (eventsByPerson st) /\
    displayCalendar ParseRFC3339 ParseCivil entries (winStart w) (winEnd w)
    = Some lines.

(** A failing fetch does not keep [main] from printing. *)
Lemma main_prints (timeNow : Time) (calendars : gset string) :
  exists lines, mainPrints timeNow calendars lines.
Proof.
  destruct (finishes_all calendars (spawned calendars) eq_refl) as (st & Hrun & Hdone).
  pose proof (queryWindow_eq timeNow (WeeksAhead cfg)) as Hwin.
  set (w := mkWindow _ _) in Hwin.
  destruct (displayCalendar_prints ParseRFC3339 ParseCivil
              (map_to_list (eventsByPerson st)) (winStart w) (winEnd w))
    as (g & startDate & weeks & _ & _ & _ & Hprint).
  eexists. exists w, st, (map_to_list (eventsByPerson st)).
  split; [exact Hwin|]. split; [split; assumption|]. split; [reflexivity|exact Hprint].
Qed.

End fanout.

(** Three members; the provider fails for the second. *)
Definition sampleListEvents (email : string) : Result (list Event) :=
  if decide (email = "amy@example.com"%string) then Ok [seventyTwoHours; thirtyHours]
  else if decide (email = "bob@example.com"%string) then Err "transport error"
  else Ok [fortyEightHours].

Definition sampleConfig : Config := mkConfig 8 (24 * Hour) "UTC".

Definition sampleCalendars : gset string :=
  {[ "amy@example.com"; "bob@example.com"; "cat@example.com" ]}%string.

Lemma fanout_one_failure_witness :
  exists st,
    joined sampleParseRFC3339 sampleParseCivil sampleLoadLocation
           sampleListEvents sampleConfig sampleCalendars st /\
    eventsByPerson st !! "bob@example.com"%string = None /\
    eventsByPerson st !! "amy@example.com"%string = Some [seventyTwoHours; thirtyHours] /\
    eventsByPerson st !! "cat@example.com"%string = Some [fortyEightHours].
Proof.
  destruct (fanout_one_failure sampleParseRFC3339 sampleParseCivil sampleLoadLocation
              sampleListEvents sampleConfig sampleCalendars
              "bob@example.com" "unable to retrieve events: transport error")
    as [[st Hjoined] Hall].
  - unfold sampleCalendars.
    apply elem_of_union_l, elem_of_union_r, elem_of_singleton. reflexivity.
  - vm_compute. reflexivity.
  - intros email Hin Hne. unfold sampleCalendars in Hin.
    apply elem_of_union in Hin as [Hin|Hin];
      [apply elem_of_union in Hin as [Hin|Hin]|];
      apply elem_of_singleton in Hin; subst email.
    + eexists. vm_compute. reflexivity.
    + contradiction.
    + eexists. vm_compute. reflexivity.
  - exists st. split; [exact Hjoined|].
    destruct (Hall st Hjoined) as (_ & Hbob & _ & Hstored).
    split; [exact Hbob|]. split.
    + apply Hstored.
      * unfold sampleCalendars.
        apply elem_of_union_l, elem_of_union_l, elem_of_singleton. reflexivity.
      * vm_compute. reflexivity.
    + apply Hstored.
      * unfold sampleCalendars. apply elem_of_union_r, elem_of_singleton. reflexivity.
      * vm_compute. reflexivity.
Defined.


(** * Further properties of the code *)

(** ** [parseFlags]: the reset flags *)

(** What one deletion leaves: the secret is gone when the backend did
    not refuse, and everything else is as it was. *)
Lemma resetKey_lookup refusal key okMsg warnMsg
    (st : gmap string string * list string) k :
  (resetKey refusal key okMsg warnMsg st).1 !! k
  = if decide (k = key /\ refusal = None) then None else st.1 !! k.
Proof.
  destruct st as [keyring out]. unfold resetKey, keyringDelete.
  destruct refusal as [e|]; cbn [fst].
  - destruct (decide (k = key /\ Some e = None)) as [[_ H]|_];
      [discriminate H|reflexivity].
  - destruct (keyring !! key) as [secret|] eqn:Hkey; cbn [fst].
    + destruct (decide (k = key /\ None = None)) as [[-> _]|Hne].
      * apply lookup_delete_eq.
      * apply lookup_delete_ne. intros <-. apply Hne. split; reflexivity.
    + destruct (decide (k = key /\ None = None)) as [[-> _]|Hne];
        [exact Hkey|reflexivity].
Qed.

(** What one deletion prints: the message of success only when the
    secret is not there afterwards, a warning otherwise, after what was
    printed before. *)
Lemma resetKey_printed refusal key okMsg warnMsg
    (st : gmap string string * list string) :
  exists line,
    (resetKey refusal key okMsg warnMsg st).2 = st.2 ++ [line] /\
    ((line = okMsg /\ (resetKey refusal key okMsg warnMsg st).1 !! key = None) \/
     (exists e, line = (warnMsg ++ e)%string /\
                (resetKey refusal key okMsg warnMsg st).1 = st.1)).
Proof.
  destruct st as [keyring out]. unfold resetKey, keyringDelete.
  destruct refusal as [e|]; cbn [fst snd].
  - eexists. split; [reflexivity|]. right. eauto.
  - destruct (keyring !! key) as [secret|] eqn:Hkey; cbn [fst snd].
    + eexists. split; [reflexivity|]. left. split; [reflexivity|].
      apply lookup_delete_eq.
    + eexists. split; [reflexivity|]. right. eauto.
Qed.

(** Which secrets a successful [parseFlags] leaves in the keyring. *)
Lemma parseFlags_lookup
    (refused : DeleteCall -> option string)
    (localTZ : option string) (cmd : Flags) (environ keyring : gmap string string)
    cfg keyring' out k :
  parseFlags refused localTZ (Some cmd) environ keyring = Some (cfg, keyring', out) ->
  keyring' !! k
  = if decide ((k = clientSecretKey /\ flagResetSecret cmd = true
                /\ refused DeleteSecret = None)
               \/ (k = tokenKey
                   /\ ((flagResetSecret cmd = true
                        /\ refused DeleteTokenWithSecret = None)
                       \/ (flagResetToken cmd = true
                           /\ refused DeleteToken = None))))
    then None else keyring !! k.
Proof.
  unfold parseFlags. destruct localTZ as [localTZ|]; [|discriminate].
  assert (Hkeys : clientSecretKey <> tokenKey) by discriminate.
  intros Hrun.
  apply (f_equal (fun o => match o with
                           | Some (_, kr, _) => kr !! k
                           | None => None
                           end)) in Hrun.
  cbv beta iota zeta in Hrun. rewrite <- Hrun. clear Hrun.
  destruct (flagResetSecret cmd), (flagResetToken cmd); cbv beta iota zeta;
    rewrite ?resetKey_lookup; cbn [fst];
    repeat case_decide; try reflexivity; exfalso; intuition congruence.
Qed.

Lemma resetKey_length refusal key okMsg warnMsg (st : gmap string string * list string) :
  length (resetKey refusal key okMsg warnMsg st).2 = S (length st.2).
Proof.
  destruct (resetKey_printed refusal key okMsg warnMsg st) as (line & -> & _).
  rewrite length_app. cbn [length]. lia.
Qed.

Lemma resetKey_line refusal key okMsg warnMsg (st : gmap string string * list string)
    (line : string) :
  line ∈ (resetKey refusal key okMsg warnMsg st).2 ->
  line ∈ st.2 \/ (line = okMsg /\ refusal = None)
  \/ exists e, line = (warnMsg ++ e)%string.
Proof.
  destruct st as [keyring out]. unfold resetKey, keyringDelete.
  destruct refusal as [e|]; [|destruct (keyring !! key)]; cbn [fst snd];
    intros Hin; apply elem_of_app in Hin as [Hin|Hin]; auto;
    apply list_elem_of_singleton in Hin; eauto.
Qed.

(** The lines of a run of [parseFlags]: a report that a secret has been
    reset is printed only when that secret is not in the keyring that
    the run leaves. *)
Lemma parseFlags_reports
    (refused : DeleteCall -> option string)
    (localTZ : option string) (cmd : Flags) (environ keyring : gmap string string)
    cfg keyring' out :
  parseFlags refused localTZ (Some cmd) environ keyring = Some (cfg, keyring', out) ->
  length out = ((if flagResetSecret cmd then 2 else 0)
                + (if flagResetToken cmd then 1 else 0))%nat /\
  ("Client secret has been reset."%string ∈ out ->
   keyring' !! clientSecretKey = None) /\
  ("OAuth token has been reset."%string ∈ out ->
   keyring' !! tokenKey = None).
Proof.
  intros Hrun.
  pose proof (parseFlags_lookup _ _ _ _ _ _ _ _ clientSecretKey Hrun) as Hsecret.
  pose proof (parseFlags_lookup _ _ _ _ _ _ _ _ tokenKey Hrun) as Htoken.
  unfold parseFlags in Hrun. destruct localTZ as [localTZ|]; [|discriminate].
  apply (f_equal (fun o => match o with
                           | Some (_, _, printed) => printed
                           | None => []
                           end)) in Hrun.
  cbv beta iota zeta in Hrun. subst out.
  destruct (flagResetSecret cmd), (flagResetToken cmd); cbv beta iota zeta;
    rewrite ?resetKey_length;
    (split; [reflexivity|]);
    split; intros Hin;
    repeat (apply resetKey_line in Hin as [Hin|[[Heq Href]|[e Heq]]];
            try discriminate Heq);
    try (by apply elem_of_nil in Hin);
    first [ rewrite Hsecret | rewrite Htoken ];
    apply decide_True; intuition congruence.
Qed.

(** X1.  The keyring that [parseFlags] leaves.  A secret is removed
    exactly when its deletion was asked for ([--reset-secret] for the
    client secret and the token, [--reset-token] for the token) and the
    backend did not refuse it; a refused deletion leaves the secret
    stored, and every other secret is as it was.  One line is printed or
    logged for each deletion asked for, none without a reset flag, and a
    report that a secret has been reset is printed only when that secret
    is gone. *)
Theorem parseFlags_keyring_after
    (refused : DeleteCall -> option string)
    (localTZ : string) (cmd : Flags) (environ keyring : gmap string string) :
  exists cfg keyring' out,
    parseFlags refused (Some localTZ) (Some cmd) environ keyring
    = Some (cfg, keyring', out) /\
    (forall k,
       keyring' !! k
       = if decide ((k = clientSecretKey /\ flagResetSecret cmd = true
                     /\ refused DeleteSecret = None)
                    \/ (k = tokenKey
                        /\ ((flagResetSecret cmd = true
                             /\ refused DeleteTokenWithSecret = None)
                            \/ (flagResetToken cmd = true
                                /\ refused DeleteToken = None))))
         then None else keyring !! k) /\
    length out = ((if flagResetSecret cmd then 2 else 0)
                  + (if flagResetToken cmd then 1 else 0))%nat /\
    ("Client secret has been reset."%string ∈ out ->
     keyring' !! clientSecretKey = None) /\
    ("OAuth token has been reset."%string ∈ out ->
     keyring' !! tokenKey = None).
Proof.
  destruct (parseFlags refused (Some localTZ) (Some cmd) environ keyring)
    as [[[cfg keyring'] out]|] eqn:Hrun; [|discriminate Hrun].
  exists cfg, keyring', out. split; [reflexivity|]. split.
  - intros k. exact (parseFlags_lookup _ _ _ _ _ _ _ _ k Hrun).
  - exact (parseFlags_reports _ _ _ _ _ _ _ _ Hrun).
Qed.

(** A keyring that is locked: [--reset-secret] warns twice and leaves
    both secrets stored. *)
Example parseFlags_refused_deletion :
  parseFlags (fun _ => Some "keyring is locked"%string) (Some "UTC"%string)
             (Some (mkFlags None None None true false)) ∅
             {[ clientSecretKey := "secret-1"%string; tokenKey := cachedBlob ]}
  = Some (mkConfig 8 (24 * Hour) "UTC",
          {[ clientSecretKey := "secret-1"%string; tokenKey := cachedBlob ]},
          ["Warning: Could not delete client secret: keyring is locked";
           "Warning: Could not delete OAuth token: keyring is locked"]%string).
Proof. reflexivity. Qed.

(** X2.  Where CALENDAR_TIMEZONE is unset or empty, the configuration
    is what the flags say, and for a flag that was not given the
    default: 8 weeks, 24 hours, the system's zone. *)
Theorem parseFlags_defaults
    (refused : DeleteCall -> option string)
    (localTZ : string) (cmd : Flags) (environ keyring : gmap string string) :
  Getenv environ "CALENDAR_TIMEZONE" = ""%string ->
  exists keyring' out,
    parseFlags refused (Some localTZ) (Some cmd) environ keyring
    = Some (mkConfig (default 8 (flagWeeks cmd))
                     (default (24 * Hour) (flagMinDuration cmd))
                     (default localTZ (flagTimezone cmd)),
            keyring', out).
Proof.
  intros Henv. unfold parseFlags. rewrite Henv.
  destruct (decide (""%string = ""%string)) as [_|Hne]; [|contradiction].
  do 2 eexists. reflexivity.
Qed.

Lemma parseFlags_defaults_witness :
  exists keyring' out,
    parseFlags noRefusal (Some "Europe/Amsterdam"%string)
               (Some (mkFlags None (Some (48 * Hour)) None false false))
               {[ "CALENDAR_TIMEZONE"%string := ""%string ]} ∅
    = Some (mkConfig 8 (48 * Hour) "Europe/Amsterdam", keyring', out).
Proof.
  apply (parseFlags_defaults noRefusal "Europe/Amsterdam"
           (mkFlags None (Some (48 * Hour)) None false false)
           {[ "CALENDAR_TIMEZONE"%string := ""%string ]} ∅).
  reflexivity.
Defined.

(** ** [getConfig]: the client registration *)

(** [oauth2.Config], the fields that identify the client. *)
Record OAuthConfig := mkOAuthConfig {
  ClientID : string;
  ClientSecret : string
}.

(** What ends the wait for the pasted secret (the [select] of lines
    122-145): a line read from standard input, a read error, or the
    cancellation of the context. *)
Inductive Typed :=
| Line (secret : string)
| ReadError (cause : string)
| Interrupted.

(** Everything outside [main.go] that one call of [getConfig] meets. *)
Record SetupWorld := mkSetupWorld {
  typed : Typed;
  jsonCheck : string -> option string;        (* the error of [json.Unmarshal], if any *)
  ConfigFromJSON : string -> Result OAuthConfig;  (* [google.ConfigFromJSON] *)
  secretSet : option string                   (* the error of [keyring.Set], if any *)
}.

Definition setupPrompt : list string :=
  ["First time setup. Please provide your Google OAuth client secret:";
   "1. Go to https://console.cloud.google.com";
   "2. Create a new project or select an existing one";
   "3. Enable the Google Calendar API";
   "4. Go to Credentials and create an OAuth 2.0 Client ID, with http://127.0.0.1 as the redirect URI";
   "6. Download the client secret JSON file";
   "";
   "Paste the contents of your client_secret.json file and press Enter:"]%string.

Record Setup := mkSetup {
  config : Result OAuthConfig;
  prompted : list string;
  keyringLeft : gmap string string
}.

(** Lines 148-152. *)
Definition parseClientSecret (w : SetupWorld) (clientSecret : string)
  : Result OAuthConfig :=
  match ConfigFromJSON w clientSecret with
  | Err e => Err ("unable to parse client secret: " ++ e)
  | Ok config => Ok config
  end.

Definition getConfig (w : SetupWorld) (keyring : gmap string string) : Setup :=
  match keyring !! clientSecretKey with
  | Some clientSecret => mkSetup (parseClientSecret w clientSecret) [] keyring
  | None =>
  match typed w with
  | ReadError cause => mkSetup (Err ("error reading input: " ++ cause)) setupPrompt keyring
  | Interrupted => mkSetup (Err "operation cancelled") setupPrompt keyring
  | Line secret =>
  match jsonCheck w secret with
  | Some e =>
      mkSetup (Err ("invalid JSON format: " ++ e
                    ++ String "010" "Please make sure you're pasting the entire client_secret.json file"))
              setupPrompt keyring
  | None =>
  match ConfigFromJSON w secret with
  | Err e =>
      mkSetup (Err ("invalid client secret format: " ++ e
                    ++ String "010" "Please make sure you're using the correct client_secret.json file"))
              setupPrompt keyring
  | Ok _ =>
  match secretSet w with
  | Some e => mkSetup (Err ("failed to store client secret: " ++ e)) setupPrompt keyring
  | None =>
      mkSetup (parseClientSecret w secret) setupPrompt
              (<[clientSecretKey := secret]> keyring)
  end end end end end.

(** X3.  [getConfig] changes the keyring in one way only: it stores,
    under the key of the client secret, a pasted line that passed both
    checks (it is JSON and it is a client registration), when no secret
    was stored before; the call then succeeds with the configuration read
    from that line.  In every other case, and on every error, the keyring
    is as it was. *)
Theorem getConfig_stores_only_checked_secret
    (w : SetupWorld) (keyring : gmap string string) :
  keyringLeft (getConfig w keyring) = keyring \/
  exists secret cfg,
    keyring !! clientSecretKey = None /\
    typed w = Line secret /\
    jsonCheck w secret = None /\
    ConfigFromJSON w secret = Ok cfg /\
    keyringLeft (getConfig w keyring) = <[clientSecretKey := secret]> keyring /\
    config (getConfig w keyring) = Ok cfg.
Proof.
  unfold getConfig.
  destruct (keyring !! clientSecretKey) as [stored|] eqn:Hstored; [by left|].
  destruct (typed w) as [secret|cause|]; [|by left|by left].
  destruct (jsonCheck w secret) as [e|] eqn:Hjson; [by left|].
  destruct (ConfigFromJSON w secret) as [cfg|e] eqn:Hcfg; [|by left].
  destruct (secretSet w) as [e|]; [by left|].
  right. exists secret, cfg. cbn [keyringLeft config].
  unfold parseClientSecret. rewrite Hcfg. repeat split; try reflexivity; assumption.
Qed.

(** X4.  After a call of [getConfig] that succeeded, the next call on
    the keyring it left returns the same configuration without asking:
    nothing is printed, standard input is not waited for, the keyring
    stays. *)
Theorem getConfig_again_is_silent
    (w w' : SetupWorld) (keyring : gmap string string) (cfg : OAuthConfig) :
  config (getConfig w keyring) = Ok cfg ->
  ConfigFromJSON w' = ConfigFromJSON w ->
  getConfig w' (keyringLeft (getConfig w keyring))
  = mkSetup (Ok cfg) [] (keyringLeft (getConfig w keyring)).
Proof.
  unfold getConfig at 1 3 4. intros Hok Hsame.
  destruct (keyring !! clientSecretKey) as [stored|] eqn:Hstored.
  - cbn [config keyringLeft] in *. unfold getConfig. rewrite Hstored.
    unfold parseClientSecret in *. rewrite Hsame.
    destruct (ConfigFromJSON w stored); [|discriminate]. congruence.
  - destruct (typed w) as [secret|cause|]; [|discriminate|discriminate].
    destruct (jsonCheck w secret); [discriminate|].
    destruct (ConfigFromJSON w secret) as [cfg'|e] eqn:Hcfg; [|discriminate].
    destruct (secretSet w); [discriminate|].
    cbn [config keyringLeft] in *. unfold getConfig. rewrite lookup_insert_eq.
    unfold parseClientSecret in *. rewrite Hsame, Hcfg in *. congruence.
Qed.

Definition sampleSecret : string := "installed-client-17".
Definition sampleOAuthConfig : OAuthConfig :=
  mkOAuthConfig "17.apps.googleusercontent.com" "GOCSPX-17".

(** A world in which the user pastes [line]; the one registration known
    to the provider's library is [sampleSecret]. *)
Definition setupWorld (line : Typed) : SetupWorld :=
  mkSetupWorld line
    (fun s => if decide (s = "not json"%string) then Some "invalid character"%string else None)
    (fun s => if decide (s = sampleSecret) then Ok sampleOAuthConfig
              else Err "missing redirect URL in the client_credentials.json")
    None.

Lemma getConfig_again_is_silent_witness :
  getConfig (setupWorld Interrupted)
            (keyringLeft (getConfig (setupWorld (Line sampleSecret)) ∅))
  = mkSetup (Ok sampleOAuthConfig) []
            (keyringLeft (getConfig (setupWorld (Line sampleSecret)) ∅)).
Proof.
  apply (getConfig_again_is_silent (setupWorld (Line sampleSecret))
           (setupWorld Interrupted) ∅ sampleOAuthConfig).
  - reflexivity.
  - reflexivity.
Defined.

(** ** The reset flags and the calls that follow *)

(** X5.  After a [parseFlags] with [--reset-secret] whose deletion of
    the client secret the backend did not refuse, the [getConfig] that
    follows asks for the client secret again, whatever was stored; after
    a deletion of the token that the backend did not refuse, [getToken]
    finds no cached token, so that a token that had not expired is not
    used.  When the backend refuses every deletion of the token, the
    cached token is found as before. *)
Theorem reset_forces_fresh_start
    (refused : DeleteCall -> option string)
    (localTZ : option string) (cmd : Flags) (environ keyring : gmap string string)
    (cfg : Config) (keyring' : gmap string string) (out : list string) :
  parseFlags refused localTZ (Some cmd) environ keyring = Some (cfg, keyring', out) ->
  (flagResetSecret cmd = true -> refused DeleteSecret = None ->
   forall sw, prompted (getConfig sw keyring') = setupPrompt) /\
  ((flagResetSecret cmd = true /\ refused DeleteTokenWithSecret = None)
   \/ (flagResetToken cmd = true /\ refused DeleteToken = None) ->
   forall w, cachedToken w keyring' = None) /\
  (refused DeleteTokenWithSecret <> None -> refused DeleteToken <> None ->
   forall w, cachedToken w keyring' = cachedToken w keyring).
Proof.
  intros Hrun. split; [|split].
  - intros Hreset Hlet sw.
    pose proof (parseFlags_lookup _ _ _ _ _ _ _ _ clientSecretKey Hrun) as Hlook.
    rewrite decide_True in Hlook by auto.
    unfold getConfig. rewrite Hlook.
    destruct (typed sw); [|reflexivity|reflexivity].
    destruct (jsonCheck sw secret); [reflexivity|].
    destruct (ConfigFromJSON sw secret); [|reflexivity].
    destruct (secretSet sw); reflexivity.
  - intros Hreset w.
    pose proof (parseFlags_lookup _ _ _ _ _ _ _ _ tokenKey Hrun) as Hlook.
    rewrite decide_True in Hlook by auto.
    unfold cachedToken. rewrite Hlook. reflexivity.
  - intros Hrefused1 Hrefused2 w.
    pose proof (parseFlags_lookup _ _ _ _ _ _ _ _ tokenKey Hrun) as Hlook.
    rewrite decide_False in Hlook.
    + unfold cachedToken. rewrite Hlook. reflexivity.
    + intros [[Heq _]|[_ [[_ H]|[_ H]]]]; [discriminate Heq|contradiction..].
Qed.

(** On 2025-05-13 the stored token has not expired and would be used;
    after [--reset-token] it is not found. *)
Lemma reset_forces_fresh_start_witness :
  cachedToken (worldWith (Ok "nonce-1"%string) (Cancelled "unused")) keyringWithToken
  = Some cachedTok /\
  cachedToken (worldWith (Ok "nonce-1"%string) (Cancelled "unused"))
              (delete tokenKey keyringWithToken)
  = None.
Proof.
  split; [vm_compute; reflexivity|].
  refine (proj1 (proj2 (reset_forces_fresh_start noRefusal (Some "UTC"%string)
                   (mkFlags None None None false true) ∅ keyringWithToken
                   (mkConfig 8 (24 * Hour) "UTC") (delete tokenKey keyringWithToken)
                   ["OAuth token has been reset."%string] _)) _
                (worldWith (Ok "nonce-1"%string) (Cancelled "unused"))).
  - reflexivity.
  - right. split; reflexivity.
Defined.

(** ** [getToken]: what reaches the token endpoint and the keyring *)

(** X6.  [getToken] calls the token endpoint only with the code of a
    callback request whose [state] equals the nonce of the attempt and
    whose code is not empty. *)
Theorem getToken_exchanges_accepted_code
    (w : World) (keyring : gmap string string) (code : string) :
  EExchange code ∈ effects (getToken w keyring) ->
  exists state r,
    generateRandomState w = Ok state /\
    arrival w = Callback r /\
    queryState r = state /\
    queryCode r = code /\
    code <> ""%string.
Proof.
  intros Hin.
  destruct (getToken_exchange_code w keyring code Hin) as (state & Hstate & Hawait).
  exists state. unfold awaitCode in Hawait.
  destruct (arrival w) as [r|cause|cause]; [|discriminate|discriminate].
  exists r. unfold handler in Hawait.
  destruct (decide (queryState r <> state)) as [Hne|Heq]; [discriminate|].
  destruct (decide (queryCode r = ""%string)) as [Hempty|Hcode]; [discriminate|].
  injection Hawait as <-.
  split; [exact Hstate|]. split; [reflexivity|].
  split; [|split; [reflexivity|exact Hcode]].
  destruct (decide (queryState r = state)); [assumption|contradiction].
Qed.

Lemma getToken_exchanges_accepted_code_witness :
  exists state r,
    generateRandomState worldInJuly = Ok state /\
    arrival worldInJuly = Callback r /\
    queryState r = state /\
    queryCode r = "code-1"%string /\
    "code-1"%string <> ""%string.
Proof.
  apply (getToken_exchanges_accepted_code worldInJuly keyringWithToken "code-1").
  rewrite getToken_in_july. cbn [effects].
  do 4 apply list_elem_of_further. apply list_elem_of_here.
Defined.

(** X7.  [getToken] writes to the keyring under the key of the token
    only; when it fails, and when it returns the cached token, it leaves
    the keyring as it found it; and when it returns a token after an
    exchange, what it stored is the serialization of that token. *)
Theorem getToken_keyring_after (w : World) (keyring : gmap string string) :
  (forall k, k <> tokenKey ->
     keyringAfter (getToken w keyring) !! k = keyring !! k) /\
  (forall e, returned (getToken w keyring) = Err e ->
     keyringAfter (getToken w keyring) = keyring) /\
  (effects (getToken w keyring) = [] ->
     keyringAfter (getToken w keyring) = keyring) /\
  (forall tok, returned (getToken w keyring) = Ok tok ->
     effects (getToken w keyring) <> [] ->
     exists tokenBytes,
       jsonMarshal w tok = Ok tokenBytes /\
       keyringAfter (getToken w keyring) = <[tokenKey := tokenBytes]> keyring).
Proof.
  unfold getToken.
  repeat case_match; cbn [keyringAfter returned effects];
    (split; [intros k Hk; try reflexivity; by rewrite lookup_insert_ne|]);
    (split; [intros e He; try reflexivity; discriminate He|]);
    (split; [intros Heff; try reflexivity; discriminate Heff|]);
    intros tok' Hret Heff; try discriminate Hret; try (by contradiction Heff).
  injection Hret as <-. eexists. split; [eassumption|reflexivity].
Qed.

(** X8.  A token that [getToken] returned is returned again by the next
    call from the keyring of the first, at once and without any action
    on the outside, as long as it has not expired by then, the nonce is
    generated, and the serialization of the token reads back as the
    token. *)
Theorem getToken_again_is_cached
    (w w' : World) (keyring : gmap string string) (tok : Token) (state' : string) :
  returned (getToken w keyring) = Ok tok ->
  (forall tokenBytes, jsonMarshal w tok = Ok tokenBytes ->
     jsonUnmarshal w tokenBytes = Some tok) ->
  jsonUnmarshal w' = jsonUnmarshal w ->
  generateRandomState w' = Ok state' ->
  unixNano (timeNow w') < unixNano (Expiry tok) ->
  getToken w' (keyringAfter (getToken w keyring))
  = mkOutcome (Ok tok) [] (keyringAfter (getToken w keyring)).
Proof.
  intros Hret Hround Hjson Hstate Hfresh.
  assert (Hcached : cachedToken w' (keyringAfter (getToken w keyring)) = Some tok).
  { apply cachedToken_Some. rewrite Hjson.
    revert Hret. unfold getToken.
    destruct (generateRandomState w) as [state|]; [|discriminate].
    destruct (cachedToken w keyring) as [token|] eqn:Hcache.
    - cbn [returned keyringAfter]. intros [= ->].
      apply cachedToken_Some in Hcache as (tokenJSON & Hget & Hdec & _).
      exists tokenJSON. auto.
    - repeat case_match; cbn [returned keyringAfter]; intros Hret;
        try discriminate Hret.
      injection Hret as ->. eexists. rewrite lookup_insert_eq.
      split; [reflexivity|]. split; [|exact Hfresh]. by apply Hround. }
  unfold getToken at 1. rewrite Hstate, Hcached. reflexivity.
Qed.

(** A first run in which the provider issues [cachedTok], serialized as
    [cachedBlob], and a later run that is interrupted at once. *)
Definition firstRun : World :=
  mkWorld (Ok "nonce-1"%string) tuesdayMorning sampleUnmarshal (fun _ => Ok cachedBlob)
          (Ok 43123) None (Callback (mkRequest "nonce-1" "code-1"))
          (fun _ => Ok cachedTok) None.

Definition laterRun : World :=
  mkWorld (Ok "nonce-2"%string) (Date 2025 5 20 9 0 0 0 UTCLoc) sampleUnmarshal
          (fun _ => Ok cachedBlob)
          (Err "address already in use") None (Cancelled "context canceled")
          (fun _ => Err "unreachable") None.

Lemma getToken_again_is_cached_witness :
  getToken laterRun (keyringAfter (getToken firstRun ∅))
  = mkOutcome (Ok cachedTok) [] (keyringAfter (getToken firstRun ∅)).
Proof.
  apply (getToken_again_is_cached firstRun laterRun ∅ cachedTok "nonce-2").
  - reflexivity.
  - intros tokenBytes Hbytes. injection Hbytes as <-. reflexivity.
  - reflexivity.
  - reflexivity.
  - vm_compute. reflexivity.
Defined.

(** ** [generateRandomState]: the nonce and its encoding *)

Module Nonce.

(** The alphabet of [base64.URLEncoding]. *)
Definition encodeURL : list ascii :=
  list_ascii_of_string
    "ABCDEFGHIJKLMNOPQRSTUVWXYZabcdefghijklmnopqrstuvwxyz0123456789-_".

Definition padChar : ascii := "="%char.

Definition encodeChar (index : Z) : ascii := nth (Z.to_nat index) encodeURL padChar.

Definition byteValue (b : Byte.byte) : Z := Z.of_N (Strings.Byte.to_N b).

(** [base64.URLEncoding.EncodeToString]: three bytes give four
    characters of six bits each; one or two bytes left over give two or
    three characters and padding. *)
Fixpoint EncodeToString (src : list Byte.byte) : string :=
  match src with
  | [] => EmptyString
  | [a] =>
      let val := Z.shiftl (byteValue a) 16 in
      String (encodeChar (Z.land (Z.shiftr val 18) 63))
        (String (encodeChar (Z.land (Z.shiftr val 12) 63))
           (String padChar (String padChar EmptyString)))
  | [a; b] =>
      let val := Z.lor (Z.shiftl (byteValue a) 16) (Z.shiftl (byteValue b) 8) in
      String (encodeChar (Z.land (Z.shiftr val 18) 63))
        (String (encodeChar (Z.land (Z.shiftr val 12) 63))
           (String (encodeChar (Z.land (Z.shiftr val 6) 63))
              (String padChar EmptyString)))
  | a :: b :: c :: rest =>
      let val := Z.lor (Z.lor (Z.shiftl (byteValue a) 16) (Z.shiftl (byteValue b) 8))
                       (byteValue c) in
      String (encodeChar (Z.land (Z.shiftr val 18) 63))
        (String (encodeChar (Z.land (Z.shiftr val 12) 63))
           (String (encodeChar (Z.land (Z.shiftr val 6) 63))
              (String (encodeChar (Z.land val 63))
                 (EncodeToString rest))))
  end.

(** [generateRandomState]; [read] is the outcome of [rand.Read] on the
    buffer of 32 bytes: the bytes it was filled with, or the error. *)
Definition generateRandomState (read : Result (list Byte.byte)) : Result string :=
  match read with
  | Err e => Err e
  | Ok b => Ok (EncodeToString b)
  end.

(** The characters that need no escaping in a URL, and the padding. *)
Definition urlSafe (c : ascii) : bool :=
  let n := Z.of_N (N_of_ascii c) in
  ((65 <=? n) && (n <=? 90)) || ((97 <=? n) && (n <=? 122))
  || ((48 <=? n) && (n <=? 57)) || (n =? 45) || (n =? 95) || (n =? 61).

Fixpoint allChars (p : ascii -> bool) (s : string) : bool :=
  match s with
  | EmptyString => true
  | String c s' => p c && allChars p s'
  end.

Example EncodeToString_sample :
  EncodeToString [Byte.xfb; Byte.xff; Byte.x00; Byte.x4d] = "-_8ATQ=="%string.
Proof. vm_compute. reflexivity. Qed.

(** *** The arithmetic of a group of bytes *)

Lemma byteValue_range b : 0 <= byteValue b <= 255.
Proof.
  unfold byteValue. pose proof (Strings.Byte.to_N_bounded b). lia.
Qed.

Lemma byteValue_inj a b : byteValue a = byteValue b -> a = b.
Proof.
  unfold byteValue. intros H. apply N2Z.inj in H.
  pose proof (Strings.Byte.of_to_N a) as Ha. rewrite H in Ha.
  rewrite Strings.Byte.of_to_N in Ha. congruence.
Qed.

(** Bits that do not overlap are joined by [|] as by [+]. *)
Lemma lor_shiftl_low x c k :
  0 <= k -> 0 <= c < 2 ^ k -> Z.lor (Z.shiftl x k) c = x * 2 ^ k + c.
Proof.
  intros Hk Hc.
  assert (Hland : Z.land (Z.shiftl x k) c = 0).
  { replace c with (Z.land c (Z.ones k))
      by (rewrite Z.land_ones by lia; apply Z.mod_small; lia).
    apply Z.bits_inj'. intros n Hn. rewrite !Z.land_spec, Z.bits_0.
    destruct (Z.lt_ge_cases n k) as [Hlt|Hge].
    - rewrite Z.shiftl_spec_low by lia. reflexivity.
    - rewrite Z.ones_spec_high by lia. rewrite !andb_false_r. reflexivity. }
  pose proof (Z.add_lor_land (Z.shiftl x k) c) as Hadd.
  rewrite Hland, Z.shiftl_mul_pow2 in Hadd by lia.
  rewrite Z.shiftl_mul_pow2 by lia. lia.
Qed.

Lemma sextet_high val n : 0 <= n -> Z.land (Z.shiftr val n) 63 = (val / 2 ^ n) mod 64.
Proof.
  intros Hn. rewrite Z.shiftr_div_pow2 by lia.
  change 63 with (Z.ones 6). rewrite Z.land_ones by lia. reflexivity.
Qed.

Lemma sextet_low val : Z.land val 63 = val mod 64.
Proof. change 63 with (Z.ones 6). rewrite Z.land_ones by lia. reflexivity. Qed.

Lemma group_value a b c :
  Z.lor (Z.lor (Z.shiftl (byteValue a) 16) (Z.shiftl (byteValue b) 8)) (byteValue c)
  = byteValue a * 65536 + byteValue b * 256 + byteValue c.
Proof.
  pose proof (byteValue_range a). pose proof (byteValue_range b).
  pose proof (byteValue_range c).
  rewrite (Z.shiftl_mul_pow2 (byteValue b)) by lia.
  rewrite lor_shiftl_low by lia.
  replace (byteValue a * 2 ^ 16 + byteValue b * 2 ^ 8)
    with (Z.shiftl (byteValue a * 256 + byteValue b) 8)
    by (rewrite Z.shiftl_mul_pow2 by lia; lia).
  rewrite lor_shiftl_low by lia. lia.
Qed.

Lemma pair_value a b :
  Z.lor (Z.shiftl (byteValue a) 16) (Z.shiftl (byteValue b) 8)
  = byteValue a * 65536 + byteValue b * 256.
Proof.
  pose proof (byteValue_range a). pose proof (byteValue_range b).
  rewrite (Z.shiftl_mul_pow2 (byteValue b)) by lia.
  rewrite lor_shiftl_low by lia. lia.
Qed.

(** *** The alphabet *)

Definition sextets : list Z := Eval vm_compute in map Z.of_nat (seq 0 64).

Lemma elem_of_sextets i : 0 <= i < 64 -> i ∈ sextets.
Proof.
  intros Hi. replace i with (Z.of_nat (Z.to_nat i)) by lia.
  change sextets with (map Z.of_nat (seq 0 64)).
  apply list_elem_of_In, in_map, in_seq. lia.
Qed.

Lemma alphabet_checked :
  forallb (fun i => forallb (fun j => implb (Ascii.eqb (encodeChar i) (encodeChar j))
                                            (i =? j)) sextets
                    && urlSafe (encodeChar i)
                    && negb (Ascii.eqb (encodeChar i) padChar)) sextets = true.
Proof. vm_compute. reflexivity. Qed.

Lemma encodeChar_facts i :
  0 <= i < 64 ->
  urlSafe (encodeChar i) = true /\ encodeChar i <> padChar /\
  forall j, 0 <= j < 64 -> encodeChar i = encodeChar j -> i = j.
Proof.
  intros Hi. pose proof alphabet_checked as Hall.
  rewrite forallb_forall in Hall.
  specialize (Hall i (proj1 (list_elem_of_In _ _) (elem_of_sextets i Hi))).
  apply andb_prop in Hall as [Hall Hpad]. apply andb_prop in Hall as [Hinj Hsafe].
  split; [exact Hsafe|]. split.
  - intros Heq. rewrite Heq, Ascii.eqb_refl in Hpad. discriminate.
  - intros j Hj Heq. rewrite forallb_forall in Hinj.
    specialize (Hinj j (proj1 (list_elem_of_In _ _) (elem_of_sextets j Hj))).
    rewrite Heq, Ascii.eqb_refl in Hinj. cbn [implb] in Hinj. lia.
Qed.

Lemma mod64_range x : 0 <= x mod 64 < 64.
Proof. apply Z.mod_pos_bound. lia. Qed.

(** Induction on a list of bytes three at a time. *)
Lemma bytes_ind3 (P : list Byte.byte -> Prop) :
  P [] -> (forall a, P [a]) -> (forall a b, P [a; b]) ->
  (forall a b c rest, P rest -> P (a :: b :: c :: rest)) ->
  forall src, P src.
Proof.
  intros Hnil Hone Htwo Hstep.
  assert (Hall : forall src, P src /\ (forall a, P (a :: src))
                            /\ (forall a b, P (a :: b :: src))).
  { induction src as [|c src (IH0 & IH1 & IH2)]; [auto|].
    split; [apply IH1|]. split; [intros a; apply IH2|].
    intros a b. apply Hstep, IH0. }
  intros src. apply Hall.
Qed.

Lemma encodeChar_mod_inj x y :
  encodeChar (x mod 64) = encodeChar (y mod 64) -> x mod 64 = y mod 64.
Proof.
  intros Heq.
  destruct (encodeChar_facts (x mod 64) (mod64_range x)) as (_ & _ & Hinj).
  apply Hinj; [apply mod64_range|exact Heq].
Qed.

Lemma encodeChar_mod_safe x :
  urlSafe (encodeChar (x mod 64)) = true /\ encodeChar (x mod 64) <> padChar.
Proof.
  destruct (encodeChar_facts (x mod 64) (mod64_range x)) as (Hsafe & Hpad & _). auto.
Qed.

(** The text has four characters for every three bytes begun, all of
    them safe in a URL. *)
Lemma EncodeToString_shape src :
  String.length (EncodeToString src) = (4 * ((length src + 2) / 3))%nat /\
  allChars urlSafe (EncodeToString src) = true.
Proof.
  induction src as [|a|a b|a b c rest [IHlen IHsafe]] using bytes_ind3;
    cbn [EncodeToString]; cbv zeta; rewrite ?sextet_high, ?sextet_low by lia;
    cbn [String.length allChars length].
  - split; reflexivity.
  - rewrite !(proj1 (encodeChar_mod_safe _)). split; reflexivity.
  - rewrite !(proj1 (encodeChar_mod_safe _)). split; reflexivity.
  - rewrite !(proj1 (encodeChar_mod_safe _)), IHlen, IHsafe. split; [|reflexivity].
    replace (S (S (S (length rest))) + 2)%nat with (length rest + 2 + 1 * 3)%nat by lia.
    rewrite Nat.div_add by lia. lia.
Qed.

(** Texts of byte strings of one length are equal only for equal byte
    strings. *)
Lemma EncodeToString_inj src : forall src',
  length src = length src' ->
  EncodeToString src = EncodeToString src' -> src = src'.
Proof.
  induction src as [|a|a b|a b c rest IH] using bytes_ind3; intros src' Hlen.
  - destruct src'; [reflexivity|discriminate Hlen].
  - destruct src' as [|a' [|? ?]]; try discriminate Hlen.
    cbn [EncodeToString]; cbv zeta. rewrite !sextet_high by lia.
    intros Heq. injection Heq as H1 H2.
    apply encodeChar_mod_inj in H1, H2.
    rewrite !Z.shiftl_mul_pow2 in H1, H2 by lia.
    pose proof (byteValue_range a). pose proof (byteValue_range a').
    assert (byteValue a = byteValue a')
      by (clear -H1 H2 H H0; Z.to_euclidean_division_equations; lia).
    f_equal. by apply byteValue_inj.
  - destruct src' as [|a' [|b' [|? ?]]]; try discriminate Hlen.
    cbn [EncodeToString]; cbv zeta. rewrite !sextet_high, !pair_value by lia.
    intros Heq. injection Heq as H1 H2 H3.
    apply encodeChar_mod_inj in H1, H2, H3.
    pose proof (byteValue_range a). pose proof (byteValue_range a').
    pose proof (byteValue_range b). pose proof (byteValue_range b').
    assert (byteValue a = byteValue a' /\ byteValue b = byteValue b') as [Ha Hb]
      by (clear -H1 H2 H3 H H0 H4 H5; Z.to_euclidean_division_equations; lia).
    apply byteValue_inj in Ha, Hb. congruence.
  - destruct src' as [|a' [|b' [|c' rest']]]; try discriminate Hlen.
    cbn [EncodeToString]; cbv zeta.
    rewrite !sextet_high, !sextet_low, !group_value by lia.
    intros Heq. injection Heq as H1 H2 H3 H4 Hrest.
    apply encodeChar_mod_inj in H1, H2, H3, H4.
    pose proof (byteValue_range a). pose proof (byteValue_range a').
    pose proof (byteValue_range b). pose proof (byteValue_range b').
    pose proof (byteValue_range c). pose proof (byteValue_range c').
    assert (byteValue a = byteValue a' /\ byteValue b = byteValue b'
            /\ byteValue c = byteValue c') as (Ha & Hb & Hc)
      by (clear -H1 H2 H3 H4 H H0 H5 H6 H7 H8; Z.to_euclidean_division_equations; lia).
    apply byteValue_inj in Ha, Hb, Hc.
    assert (rest = rest')
      by (apply IH; [cbn [length] in Hlen; lia|exact Hrest]).
    congruence.
Qed.

(** X9.  When [rand.Read] fills the buffer, [generateRandomState]
    returns a state of 44 characters, each a letter, a digit, [-], [_]
    or the padding [=]. *)
Theorem generateRandomState_shape (b : list Byte.byte) :
  length b = 32%nat ->
  exists state,
    generateRandomState (Ok b) = Ok state /\
    String.length state = 44%nat /\
    allChars urlSafe state = true.
Proof.
  intros Hlen. exists (EncodeToString b). split; [reflexivity|].
  destruct (EncodeToString_shape b) as [Hl Hs]. rewrite Hlen in Hl.
  split; [exact Hl|exact Hs].
Qed.

(** X10.  Two buffers of 32 bytes that give the same state are the same
    buffer: the state keeps all 256 bits that were drawn. *)
Theorem generateRandomState_inj (b b' : list Byte.byte) (state : string) :
  length b = 32%nat -> length b' = 32%nat ->
  generateRandomState (Ok b) = Ok state ->
  generateRandomState (Ok b') = Ok state ->
  b = b'.
Proof.
  intros Hlen Hlen' Hstate Hstate'. cbn [generateRandomState] in *.
  apply EncodeToString_inj; [congruence|congruence].
Qed.

Definition sampleBytes : list Byte.byte :=
  repeat Byte.xa7 31 ++ [Byte.x01].

Lemma generateRandomState_shape_witness :
  exists state,
    generateRandomState (Ok sampleBytes) = Ok state /\
    String.length state = 44%nat /\
    allChars urlSafe state = true.
Proof. apply (generateRandomState_shape sampleBytes). reflexivity. Defined.

Lemma generateRandomState_inj_witness : sampleBytes = sampleBytes.
Proof.
  apply (generateRandomState_inj sampleBytes sampleBytes
           (EncodeToString sampleBytes)); reflexivity.
Defined.

End Nonce.

(** ** [openBrowser] *)

(** The command that [openBrowser] runs on the platform [goos]
    ([runtime.GOOS]), with its arguments. *)
Definition browserCommand (goos url : string) : option (list string) :=
  if decide (goos = "linux"%string) then Some ["xdg-open"%string; url]
  else if decide (goos = "windows"%string)
       then Some ["rundll32"%string; "url.dll,FileProtocolHandler"%string; url]
  else if decide (goos = "darwin"%string) then Some ["open"%string; url]
  else None.

(** [openBrowser]; [start] is [exec.Command(...).Start()], which answers
    with its error.  The result is the error returned and the commands
    that were started. *)
Definition openBrowser (goos : string) (start : list string -> option string)
    (url : string) : option string * list (list string) :=
  match browserCommand goos url with
  | Some command => (start command, [command])
  | None => (Some "unsupported platform"%string, [])
  end.

(** X11.  [openBrowser] starts at most one process.  On linux, windows
    and darwin it starts one, hands it the URL as the last argument of
    the command, on its own, and returns what starting it returned; on
    any other platform it starts nothing and fails with "unsupported
    platform". *)
Theorem openBrowser_launch (goos : string) (start : list string -> option string)
    (url : string) :
  (goos ∈ ["linux"; "windows"; "darwin"]%string ->
   exists command,
     (openBrowser goos start url).2 = [command] /\
     (openBrowser goos start url).1 = start command /\
     last command = Some url) /\
  (goos ∉ ["linux"; "windows"; "darwin"]%string ->
   openBrowser goos start url = (Some "unsupported platform"%string, [])).
Proof.
  unfold openBrowser, browserCommand. split.
  - intros Hin. rewrite !elem_of_cons, elem_of_nil in Hin.
    destruct Hin as [->|[->|[->|[]]]]; cbn [decide]; eexists;
      (split; [reflexivity|]); (split; reflexivity).
  - intros Hout. rewrite !elem_of_cons, elem_of_nil in Hout.
    repeat case_decide; try reflexivity; exfalso; apply Hout; auto.
Qed.

Lemma openBrowser_launch_witness :
  openBrowser "plan9" (fun _ => None) "https://accounts.google.com/o/oauth2/auth"
  = (Some "unsupported platform"%string, []).
Proof.
  apply (openBrowser_launch "plan9" (fun _ => None)
           "https://accounts.google.com/o/oauth2/auth").
  rewrite !elem_of_cons, elem_of_nil.
  intros [H|[H|[H|[]]]]; discriminate H.
Defined.

(** ** [getGroupFreebusy] *)

(** Whether [s] starts with [substr]. *)
Fixpoint HasPrefix (s substr : string) : bool :=
  match substr, s with
  | EmptyString, _ => true
  | String c substr', String d s' => Ascii.eqb c d && HasPrefix s' substr'
  | String _ _, EmptyString => false
  end.

(** [strings.Contains(s, substr)]. *)
Fixpoint Contains (s substr : string) : bool :=
  HasPrefix s substr
  || match s with
     | String _ s' => Contains s' substr
     | EmptyString => false
     end.

Lemma HasPrefix_spec s : forall substr,
  HasPrefix s substr = true <-> exists rest, s = (substr ++ rest)%string.
Proof.
  induction s as [|d s IH]; intros [|c substr]; cbn [HasPrefix String.append].
  - split; [exists EmptyString; reflexivity|reflexivity].
  - split; [discriminate|]. intros [rest H]. discriminate H.
  - split; [eexists; reflexivity|reflexivity].
  - rewrite andb_true_iff, Ascii.eqb_eq, IH. split.
    + intros [-> [rest ->]]. exists rest. reflexivity.
    + intros [rest [= -> ->]]. split; [reflexivity|]. exists rest. reflexivity.
Qed.

Lemma Contains_spec s substr :
  Contains s substr = true <->
  exists before rest, s = (before ++ substr ++ rest)%string.
Proof.
  induction s as [|d s IH]; cbn [Contains].
  - rewrite orb_false_r, HasPrefix_spec. split.
    + intros [rest H]. exists EmptyString, rest. exact H.
    + intros (before & rest & H). destruct before as [|? ?]; [|discriminate H].
      exists rest. exact H.
  - rewrite orb_true_iff, HasPrefix_spec, IH. split.
    + intros [[rest H]|(before & rest & ->)].
      * exists EmptyString, rest. exact H.
      * exists (String d before), rest. reflexivity.
    + intros (before & rest & H). destruct before as [|d' before].
      * left. exists rest. exact H.
      * right. injection H as -> ->. exists before, rest. reflexivity.
Qed.

(** [calendar.FreeBusyRequest]. *)
Record FreeBusyRequest := mkFreeBusyRequest {
  TimeMin : Time;
  TimeMax : Time;
  RequestTimeZone : string;
  Items : list string;
  GroupExpansionMax : Z;
  CalendarExpansionMax : Z
}.

Section freebusy.

(** [calendar.FreeBusyCalendar]: what the provider says of one
    calendar. *)
Variable FreeBusyCalendar : Type.

(** [srv.Freebusy.Query(body).Context(ctx).Do()]: the calendars of the
    response, or the error. *)
Variable freebusyQuery : FreeBusyRequest -> Result (gmap string FreeBusyCalendar).

Definition getGroupFreebusy (groupEmail : string) (timeMin timeMax : Time)
    (timezone : string) : Result (gmap string FreeBusyCalendar) :=
  let body := mkFreeBusyRequest timeMin timeMax timezone [groupEmail] 100 50 in
  match freebusyQuery body with
  | Err e =>
      if Contains e "Not Found"
      then Err ("group '" ++ groupEmail
                ++ "' not found or you don't have access to it. Please check if the email address is correct")
      else Err ("unable to query freebusy: " ++ e)
  | Ok calendars =>
      if decide (size calendars = 0%nat)
      then Err ("no calendars found for group '" ++ groupEmail
                ++ "'. You might not have access to view the group's calendars")
      else Ok calendars
  end.

(** X12.  [getGroupFreebusy] succeeds exactly when the provider answers
    its one query, for the group alone with the expansion limits 100 and
    50 over the window, with at least one calendar, and it returns the
    calendars of the answer: the members that [main] then fans out over
    are never none. *)
Theorem getGroupFreebusy_ok_iff (groupEmail : string) (timeMin timeMax : Time)
    (timezone : string) (calendars : gmap string FreeBusyCalendar) :
  getGroupFreebusy groupEmail timeMin timeMax timezone = Ok calendars <->
  freebusyQuery (mkFreeBusyRequest timeMin timeMax timezone [groupEmail] 100 50)
  = Ok calendars /\ dom calendars <> ∅.
Proof.
  unfold getGroupFreebusy. cbv zeta.
  destruct (freebusyQuery _) as [answer|e].
  - destruct (decide (size answer = 0%nat)) as [Hempty|Hsome].
    + apply map_size_empty_inv in Hempty. subst answer. split; [discriminate|].
      intros [[= <-] Hdom]. exfalso. apply Hdom. apply dom_empty_L.
    + split.
      * intros [= <-]. split; [reflexivity|]. intros Hdom.
        apply dom_empty_inv_L in Hdom. subst answer. apply Hsome. apply map_size_empty.
      * intros [[= <-] _]. reflexivity.
  - destruct (Contains e "Not Found"); split; try discriminate; intros [H _]; discriminate H.
Qed.

(** X13.  When the provider's query fails, [getGroupFreebusy] reports
    that the group was not found exactly if the text of the error has
    "Not Found" somewhere in it, and otherwise that the query could not
    be made, with the error's text. *)
Theorem getGroupFreebusy_error (groupEmail : string) (timeMin timeMax : Time)
    (timezone : string) (e : string) :
  freebusyQuery (mkFreeBusyRequest timeMin timeMax timezone [groupEmail] 100 50)
  = Err e ->
  ((exists before rest, e = (before ++ "Not Found" ++ rest)%string) ->
   getGroupFreebusy groupEmail timeMin timeMax timezone
   = Err ("group '" ++ groupEmail
          ++ "' not found or you don't have access to it. Please check if the email address is correct")) /\
  (~ (exists before rest, e = (before ++ "Not Found" ++ rest)%string) ->
   getGroupFreebusy groupEmail timeMin timeMax timezone
   = Err ("unable to query freebusy: " ++ e)).
Proof.
  intros Hquery. unfold getGroupFreebusy. cbv zeta. rewrite Hquery.
  pose proof (Contains_spec e "Not Found") as Hspec.
  destruct (Contains e "Not Found").
  - split; [reflexivity|]. intros Hno. exfalso. apply Hno, Hspec. reflexivity.
  - split; [|reflexivity]. intros Hyes. apply Hspec in Hyes. discriminate Hyes.
Qed.

End freebusy.

Definition sampleFreebusy (body : FreeBusyRequest) : Result (gmap string unit) :=
  if decide (Items body = ["team@example.com"%string])
  then Ok {[ "amy@example.com"%string := tt ]}
  else Err "googleapi: Error 404: Not Found, notFound".

Lemma getGroupFreebusy_error_witness :
  getGroupFreebusy unit sampleFreebusy "nobody@example.com"
    (Date 2025 5 12 0 0 0 0 UTCLoc) (Date 2025 7 13 23 59 59 0 UTCLoc) "UTC"
  = Err "group 'nobody@example.com' not found or you don't have access to it. Please check if the email address is correct".
Proof.
  refine (proj1 (getGroupFreebusy_error unit sampleFreebusy "nobody@example.com"
            (Date 2025 5 12 0 0 0 0 UTCLoc) (Date 2025 7 13 23 59 59 0 UTCLoc) "UTC"
            "googleapi: Error 404: Not Found, notFound" eq_refl) _).
  exists "googleapi: Error 404: "%string, ", notFound"%string. reflexivity.
Defined.

Lemma getGroupFreebusy_ok_iff_witness :
  getGroupFreebusy unit sampleFreebusy "team@example.com"
    (Date 2025 5 12 0 0 0 0 UTCLoc) (Date 2025 7 13 23 59 59 0 UTCLoc) "UTC"
  = Ok {[ "amy@example.com"%string := tt ]}.
Proof.
  apply (getGroupFreebusy_ok_iff unit sampleFreebusy "team@example.com"
           (Date 2025 5 12 0 0 0 0 UTCLoc) (Date 2025 7 13 23 59 59 0 UTCLoc) "UTC").
  split; [reflexivity|].
  rewrite dom_singleton_L. intros H.
  apply (not_elem_of_empty (C:=gset string) "amy@example.com"%string).
  rewrite <- H. by apply elem_of_singleton.
Defined.

(** ** [getOutOfOfficeEvents]: more on the filter *)

Section returned.

Variable ParseRFC3339 : string -> option Time.
Variable ParseCivil : string -> option (Z * Z * Z).
Variable LoadLocation : string -> option Location.

(** X14.  [getOutOfOfficeEvents] returns events only when the provider
    answered and the timezone loaded, and then only events of the
    answer whose two ends parsed and that last the minimum duration:
    an event with an end that does not parse is never returned. *)
Theorem getOutOfOfficeEvents_returns_parsed
    (listed : Result (list Event)) (minDuration : Duration) (timezone : string)
    (filteredEvents : list Event) (event : Event) :
  getOutOfOfficeEvents ParseRFC3339 ParseCivil LoadLocation listed minDuration timezone
  = Ok filteredEvents ->
  event ∈ filteredEvents ->
  exists items loc start end_,
    listed = Ok items /\ LoadLocation timezone = Some loc /\
    event ∈ items /\
    filterBounds ParseRFC3339 ParseCivil loc event = Some (start, end_) /\
    minDuration <= Sub end_ start.
Proof.
  unfold getOutOfOfficeEvents. intros Hrun Hin.
  destruct listed as [items|e]; [|discriminate].
  destruct (LoadLocation timezone) as [loc|]; [|discriminate].
  injection Hrun as <-.
  rewrite filterByDuration_filter, app_nil_l in Hin.
  apply list_elem_of_In, filter_In in Hin as [Hin Hlong].
  unfold longEnough in Hlong.
  destruct (filterBounds ParseRFC3339 ParseCivil loc event) as [[start end_]|] eqn:Hbounds;
    [|discriminate].
  exists items, loc, start, end_.
  split; [reflexivity|]. split; [reflexivity|]. split; [by apply list_elem_of_In|].
  split; [exact Hbounds|]. by apply Z.leb_le.
Qed.

End returned.

Lemma getOutOfOfficeEvents_returns_parsed_witness :
  exists items loc start end_,
    Ok [thirtyHours; brokenEvent; seventyTwoHours; fortyEightHours] = Ok items /\
    sampleLoadLocation "UTC" = Some loc /\
    seventyTwoHours ∈ items /\
    filterBounds sampleParseRFC3339 sampleParseCivil loc seventyTwoHours
    = Some (start, end_) /\
    48 * Hour <= Sub end_ start.
Proof.
  apply (getOutOfOfficeEvents_returns_parsed sampleParseRFC3339 sampleParseCivil
           sampleLoadLocation
           (Ok [thirtyHours; brokenEvent; seventyTwoHours; fortyEightHours])
           (48 * Hour) "UTC" [seventyTwoHours; fortyEightHours] seventyTwoHours).
  - vm_compute. reflexivity.
  - apply list_elem_of_here.
Defined.

Section filter_facts.

Variable ParseRFC3339 : string -> option Time.
Variable ParseCivil : string -> option (Z * Z * Z).

Lemma longEnough_mono loc (lower higher : Duration) event :
  lower <= higher ->
  longEnough ParseRFC3339 ParseCivil loc higher event = true ->
  longEnough ParseRFC3339 ParseCivil loc lower event = true.
Proof.
  unfold longEnough. intros Hle.
  destruct (filterBounds ParseRFC3339 ParseCivil loc event) as [[start end_]|];
    [|discriminate].
  rewrite !Z.leb_le. lia.
Qed.

Lemma filter_sublist_mono {A} (p q : A -> bool) (l : list A) :
  (forall x, p x = true -> q x = true) ->
  List.filter p l `sublist_of` List.filter q l /\ List.filter q l `sublist_of` l.
Proof.
  intros Himp. induction l as [|x l [IH1 IH2]]; cbn [List.filter].
  - split; constructor.
  - destruct (p x) eqn:Hp.
    + rewrite (Himp x Hp). split; by apply sublist_skip.
    + destruct (q x).
      * split; [by apply sublist_cons|by apply sublist_skip].
      * split; [exact IH1|by apply sublist_cons].
Qed.

(** X15.  The events kept by the filter come in the order in which the
    provider listed them, and raising the minimum duration only removes
    events: what is kept for a longer minimum is kept, in the same
    order, for a shorter one. *)
Theorem filterByDuration_monotone (loc : Location) (lower higher : Duration)
    (items : list Event) :
  lower <= higher ->
  filterByDuration ParseRFC3339 ParseCivil loc higher items []
    `sublist_of` filterByDuration ParseRFC3339 ParseCivil loc lower items [] /\
  filterByDuration ParseRFC3339 ParseCivil loc lower items [] `sublist_of` items.
Proof.
  intros Hle. rewrite !filterByDuration_filter, !app_nil_l.
  apply filter_sublist_mono. intros event. by apply longEnough_mono.
Qed.

End filter_facts.

Lemma filterByDuration_monotone_witness :
  filterByDuration sampleParseRFC3339 sampleParseCivil UTCLoc (48 * Hour)
    [thirtyHours; brokenEvent; seventyTwoHours; fortyEightHours] []
    `sublist_of`
  filterByDuration sampleParseRFC3339 sampleParseCivil UTCLoc (24 * Hour)
    [thirtyHours; brokenEvent; seventyTwoHours; fortyEightHours] [].
Proof.
  refine (proj1 (filterByDuration_monotone sampleParseRFC3339 sampleParseCivil UTCLoc
                   (24 * Hour) (48 * Hour)
                   [thirtyHours; brokenEvent; seventyTwoHours; fortyEightHours] _)).
  vm_compute. discriminate.
Defined.

(** ** [displayCalendar]: what the grid holds *)

Lemma visitedDate_start (start end_ : Time) :
  unixNano start < unixNano end_ -> visitedDate start end_ (FormatDate start).
Proof.
  intros Hlt. exists 0. rewrite AddDate_0. split; [lia|]. split; [lia|reflexivity].
Qed.

Lemma Date_midnight_utc y m d :
  let t := Date y m d 0 0 0 0 UTCLoc in
  zoneOffset t = 0 /\
  unixNano t = daysFromCivil y m d * secondsPerDay * Second /\
  civilDay t = daysFromCivil y m d.
Proof.
  cbv zeta. unfold Date, UTCLoc. cbn [zoneOffset unixNano].
  split; [reflexivity|]. split; [lia|].
  replace ((daysFromCivil y m d * secondsPerDay + 0 * 3600 + 0 * 60 + 0 - 0) * Second + 0)
    with ((daysFromCivil y m d * secondsPerDay + 0 - 0) * Second) by lia.
  apply civilDay_of_clock. unfold secondsPerDay. lia.
Qed.

Section grid_theorems.

Variable ParseRFC3339 : string -> option Time.
Variable ParseCivil : string -> option (Z * Z * Z).

(** The two ends of an all-day event, as [displayCalendar] converts
    them, are midnights in UTC. *)
Lemma displayBounds_all_day (event : Event) (start end_ : Time) :
  Calendar.DateTime (Calendar.Start event) = ""%string ->
  Calendar.DateTime (Calendar.End_ event) = ""%string ->
  displayBounds ParseRFC3339 ParseCivil event = Some (start, end_) ->
  unixNano start = civilDay start * nanosPerDay /\
  unixNano end_ = civilDay end_ * nanosPerDay.
Proof.
  intros Hs He. unfold displayBounds, displayInstant, ParseDate, ParseInLocation.
  rewrite Hs, He.
  destruct (decide (""%string <> ""%string)) as [Hne|_]; [contradiction|].
  destruct (ParseCivil (Calendar.Date (Calendar.Start event))) as [[[y m] d]|];
    [|discriminate].
  destruct (ParseCivil (Calendar.Date (Calendar.End_ event))) as [[[y' m'] d']|];
    [|discriminate].
  intros [= <- <-].
  destruct (Date_midnight_utc y m d) as (_ & Hns & Hday).
  destruct (Date_midnight_utc y' m' d') as (_ & Hns' & Hday').
  rewrite Hns, Hday, Hns', Hday'. unfold nanosPerDay. lia.
Qed.

(** X16.  The grid holds nothing of its own making.  A person is on a
    date only for an event in that person's list whose two ends parse
    and whose end is after its start, and the date is not before the
    date the event starts on; for an all-day event it is before the
    date the event ends on. *)
Theorem buildGrid_marks_within_span
    (entries : list (string * list Event)) (eventsByDate : Grid)
    (person : string) (dateKey : DateKey) :
  buildGrid ParseRFC3339 ParseCivil entries ∅ = Some eventsByDate ->
  person ∈ peopleOn eventsByDate dateKey ->
  exists events event start end_ day,
    (person, events) ∈ entries /\ event ∈ events /\
    displayBounds ParseRFC3339 ParseCivil event = Some (start, end_) /\
    unixNano start < unixNano end_ /\
    dateKey = civilFromDays day /\
    civilDay start <= day /\
    (Calendar.DateTime (Calendar.Start event) = ""%string ->
     Calendar.DateTime (Calendar.End_ event) = ""%string ->
     day < civilDay end_).
Proof.
  intros Hgrid Hin.
  destruct (buildGrid_spec ParseRFC3339 ParseCivil entries ∅) as (g & Hrun & Hspec).
  rewrite Hgrid in Hrun. injection Hrun as <-.
  apply Hspec in Hin as [Hempty|(events & event & Hentry & Hevent & Hshown)].
  - unfold peopleOn in Hempty. rewrite lookup_empty in Hempty.
    by apply not_elem_of_empty in Hempty.
  - destruct Hshown as (start & end_ & Hbounds & k & Hk & Hbefore & ->).
    assert (Hday : 0 < nanosPerDay) by (unfold nanosPerDay, secondsPerDay, Second; lia).
    exists events, event, start, end_, (civilDay start + k).
    split; [exact Hentry|]. split; [exact Hevent|]. split; [exact Hbounds|].
    split; [nia|]. split.
    + unfold FormatDate, YearMonthDay. by rewrite civilDay_AddDate.
    + split; [lia|]. intros Hs He.
      destruct (displayBounds_all_day event start end_ Hs He Hbounds) as [Hns Hns'].
      rewrite Hns, Hns' in Hbefore. nia.
Qed.

(** X17.  Every event whose two ends parse and whose end is after its
    start is shown on the date it starts on, for the person in whose
    list it is. *)
Theorem buildGrid_marks_start_date
    (entries : list (string * list Event)) (person : string)
    (events : list Event) (event : Event) (start end_ : Time) :
  (person, events) ∈ entries -> event ∈ events ->
  displayBounds ParseRFC3339 ParseCivil event = Some (start, end_) ->
  unixNano start < unixNano end_ ->
  exists eventsByDate,
    buildGrid ParseRFC3339 ParseCivil entries ∅ = Some eventsByDate /\
    person ∈ peopleOn eventsByDate (FormatDate start).
Proof.
  intros Hentry Hevent Hbounds Hlt.
  destruct (buildGrid_spec ParseRFC3339 ParseCivil entries ∅) as (g & Hrun & Hspec).
  exists g. split; [exact Hrun|]. apply Hspec. right.
  exists events, event. split; [exact Hentry|]. split; [exact Hevent|].
  exists start, end_. split; [exact Hbounds|]. by apply visitedDate_start.
Qed.

(** X18.  An all-day event from the date [y-m-d] to the date [y'-m'-d']
    is shown on every date from the first up to the day before the
    second. *)
Theorem buildGrid_all_day_event
    (entries : list (string * list Event)) (person : string)
    (events : list Event) (event : Event) (y m d y' m' d' day : Z) :
  (person, events) ∈ entries -> event ∈ events ->
  Calendar.DateTime (Calendar.Start event) = ""%string ->
  Calendar.DateTime (Calendar.End_ event) = ""%string ->
  ParseCivil (Calendar.Date (Calendar.Start event)) = Some (y, m, d) ->
  ParseCivil (Calendar.Date (Calendar.End_ event)) = Some (y', m', d') ->
  daysFromCivil y m d <= day < daysFromCivil y' m' d' ->
  exists eventsByDate,
    buildGrid ParseRFC3339 ParseCivil entries ∅ = Some eventsByDate /\
    person ∈ peopleOn eventsByDate (civilFromDays day).
Proof.
  intros Hentry Hevent Hs He Hstart Hend Hday.
  destruct (buildGrid_spec ParseRFC3339 ParseCivil entries ∅) as (g & Hrun & Hspec).
  exists g. split; [exact Hrun|]. apply Hspec. right.
  exists events, event. split; [exact Hentry|]. split; [exact Hevent|].
  exists (Date y m d 0 0 0 0 UTCLoc), (Date y' m' d' 0 0 0 0 UTCLoc). split.
  - unfold displayBounds, displayInstant, ParseDate, ParseInLocation.
    rewrite Hs, He, Hstart, Hend.
    destruct (decide (""%string <> ""%string)) as [Hne|_]; [contradiction|reflexivity].
  - destruct (Date_midnight_utc y m d) as (Hoff & Hns & Hcd).
    destruct (Date_midnight_utc y' m' d') as (_ & Hns' & _).
    apply visitedDate_from_midnight.
    + rewrite Hoff, Hcd, Hns. lia.
    + exists day. rewrite Hoff, Hcd, Hns'. split; [lia|]. split; [|reflexivity].
      unfold secondsPerDay, Second. lia.
Qed.

End grid_theorems.

Definition amyEntries : list (string * list Event) :=
  [("amy@example.com"%string,
    [overnightEvent; allDayEvent "Conference" "2025-05-19" "2025-05-22"])].

Lemma buildGrid_marks_within_span_witness :
  exists events event start end_ day,
    ("amy@example.com"%string, events) ∈ amyEntries /\ event ∈ events /\
    displayBounds sampleParseRFC3339 sampleParseCivil event = Some (start, end_) /\
    unixNano start < unixNano end_ /\
    (2025, 5, 20) = civilFromDays day /\
    civilDay start <= day /\
    (Calendar.DateTime (Calendar.Start event) = ""%string ->
     Calendar.DateTime (Calendar.End_ event) = ""%string ->
     day < civilDay end_).
Proof.
  destruct (buildGrid_spec sampleParseRFC3339 sampleParseCivil amyEntries ∅)
    as (eventsByDate & Hrun & Hspec).
  apply (buildGrid_marks_within_span sampleParseRFC3339 sampleParseCivil
           amyEntries eventsByDate "amy@example.com" (2025, 5, 20) Hrun).
  apply Hspec. right.
  exists [overnightEvent; allDayEvent "Conference" "2025-05-19" "2025-05-22"],
    (allDayEvent "Conference" "2025-05-19" "2025-05-22").
  split; [apply list_elem_of_here|].
  split; [apply list_elem_of_further, list_elem_of_here|].
  exists (Date 2025 5 19 0 0 0 0 UTCLoc), (Date 2025 5 22 0 0 0 0 UTCLoc).
  split; [vm_compute; reflexivity|].
  exists 1. split; [lia|]. split; vm_compute; reflexivity.
Defined.

Lemma buildGrid_marks_start_date_witness :
  exists eventsByDate,
    buildGrid sampleParseRFC3339 sampleParseCivil amyEntries ∅ = Some eventsByDate /\
    "amy@example.com"%string
      ∈ peopleOn eventsByDate (FormatDate (Date 2025 5 12 17 0 0 0 UTCLoc)).
Proof.
  apply (buildGrid_marks_start_date sampleParseRFC3339 sampleParseCivil amyEntries
           "amy@example.com"
           [overnightEvent; allDayEvent "Conference" "2025-05-19" "2025-05-22"]
           overnightEvent
           (Date 2025 5 12 17 0 0 0 UTCLoc) (Date 2025 5 14 9 0 0 0 UTCLoc)).
  - apply list_elem_of_here.
  - apply list_elem_of_here.
  - vm_compute. reflexivity.
  - vm_compute. reflexivity.
Defined.

Lemma buildGrid_all_day_event_witness :
  exists eventsByDate,
    buildGrid sampleParseRFC3339 sampleParseCivil amyEntries ∅ = Some eventsByDate /\
    "amy@example.com"%string
      ∈ peopleOn eventsByDate (civilFromDays (daysFromCivil 2025 5 21)).
Proof.
  apply (buildGrid_all_day_event sampleParseRFC3339 sampleParseCivil amyEntries
           "amy@example.com"
           [overnightEvent; allDayEvent "Conference" "2025-05-19" "2025-05-22"]
           (allDayEvent "Conference" "2025-05-19" "2025-05-22")
           2025 5 19 2025 5 22).
  - apply list_elem_of_here.
  - apply list_elem_of_further, list_elem_of_here.
  - reflexivity.
  - reflexivity.
  - vm_compute. reflexivity.
  - vm_compute. reflexivity.
  - vm_compute. split; [discriminate|reflexivity].
Defined.

(** ** [displayCalendar]: the output does not depend on the order of the map *)

Lemma foldl_ext_in {A B} (f g : A -> B -> A) (l : list B) :
  (forall a b, f a b = g a b) -> forall a, foldl f a l = foldl g a l.
Proof.
  intros Hfg. induction l as [|b l IH]; intros a; cbn [foldl]; [reflexivity|].
  rewrite Hfg. apply IH.
Qed.

Lemma weekBlock_ext (eventsByDate eventsByDate' : Grid) (currentDate : Time) :
  (forall dateKey, peopleOn eventsByDate dateKey = peopleOn eventsByDate' dateKey) ->
  weekBlock eventsByDate currentDate = weekBlock eventsByDate' currentDate.
Proof.
  intros Hsame.
  assert (Hpeople : people eventsByDate currentDate = people eventsByDate' currentDate).
  { unfold people, peopleThisWeek.
    rewrite (foldl_ext_in _
               (fun people i =>
                  people ∪ peopleOn eventsByDate' (FormatDate (AddDate currentDate i))));
      [reflexivity|].
    intros a i. by rewrite Hsame. }
  assert (Hrow : forall person,
             personRow eventsByDate currentDate person
             = personRow eventsByDate' currentDate person).
  { intros person. unfold personRow. apply foldl_ext_in.
    intros row i. by rewrite Hsame. }
  unfold weekBlock, weekBody. rewrite Hpeople.
  destruct (people eventsByDate' currentDate) as [|person rest]; [reflexivity|].
  rewrite (map_ext _ _ Hrow). reflexivity.
Qed.

Lemma weeksLoop_ext (eventsByDate eventsByDate' : Grid) (timeMax : Time) fuel :
  (forall dateKey, peopleOn eventsByDate dateKey = peopleOn eventsByDate' dateKey) ->
  forall currentDate,
    weeksLoop fuel eventsByDate currentDate timeMax
    = weeksLoop fuel eventsByDate' currentDate timeMax.
Proof.
  intros Hsame. induction fuel as [|fuel IH]; intros cur; cbn [weeksLoop]; [reflexivity|].
  rewrite IH, (weekBlock_ext _ _ cur Hsame). reflexivity.
Qed.

Section order.

Variable ParseRFC3339 : string -> option Time.
Variable ParseCivil : string -> option (Z * Z * Z).

Lemma buildGrid_perm (entries entries' : list (string * list Event))
    (eventsByDate eventsByDate' : Grid) :
  entries ≡ₚ entries' ->
  buildGrid ParseRFC3339 ParseCivil entries ∅ = Some eventsByDate ->
  buildGrid ParseRFC3339 ParseCivil entries' ∅ = Some eventsByDate' ->
  forall dateKey, peopleOn eventsByDate dateKey = peopleOn eventsByDate' dateKey.
Proof.
  intros Hperm Hgrid Hgrid' dateKey.
  destruct (buildGrid_spec ParseRFC3339 ParseCivil entries ∅) as (g & Hrun & Hspec).
  destruct (buildGrid_spec ParseRFC3339 ParseCivil entries' ∅) as (g' & Hrun' & Hspec').
  rewrite Hgrid in Hrun. rewrite Hgrid' in Hrun'.
  injection Hrun as <-. injection Hrun' as <-.
  apply set_eq. intros p. rewrite Hspec, Hspec'.
  split; (intros [H|(events & event & Hin & Hrest)]; [by left|right]);
    exists events, event; (split; [|exact Hrest]).
  - by rewrite <- Hperm.
  - by rewrite Hperm.
Qed.

(** X19.  [displayCalendar] prints the same lines in whatever order the
    entries of the map come up in its [range] loop. *)
Theorem displayCalendar_order_irrelevant
    (entries entries' : list (string * list Event)) (timeMin timeMax : Time) :
  entries ≡ₚ entries' ->
  displayCalendar ParseRFC3339 ParseCivil entries timeMin timeMax
  = displayCalendar ParseRFC3339 ParseCivil entries' timeMin timeMax.
Proof.
  intros Hperm. unfold displayCalendar.
  destruct (buildGrid_spec ParseRFC3339 ParseCivil entries ∅) as (g & Hrun & _).
  destruct (buildGrid_spec ParseRFC3339 ParseCivil entries' ∅) as (g' & Hrun' & _).
  rewrite Hrun, Hrun'.
  destruct (seekWeekday weekFuel Monday (-1) timeMin) as [startDate|]; [|reflexivity].
  rewrite (weeksLoop_ext g g' timeMax _
             (buildGrid_perm entries entries' g g' Hperm Hrun Hrun')).
  reflexivity.
Qed.

End order.

Lemma displayCalendar_order_irrelevant_witness :
  displayCalendar sampleParseRFC3339 sampleParseCivil readmeEntries
    (Date 2025 5 12 0 0 0 0 UTCLoc) (Date 2025 5 25 23 59 59 0 UTCLoc)
  = displayCalendar sampleParseRFC3339 sampleParseCivil (reverse readmeEntries)
      (Date 2025 5 12 0 0 0 0 UTCLoc) (Date 2025 5 25 23 59 59 0 UTCLoc).
Proof.
  apply (displayCalendar_order_irrelevant sampleParseRFC3339 sampleParseCivil
           readmeEntries (reverse readmeEntries)).
  symmetry. apply reverse_Permutation.
Defined.

(** ** [displayCalendar]: how many weeks *)

(** The weeks that the loop of lines 367-420 prints from [currentDate]:
    one for every seventh day that is not after [timeMax]. *)
Definition weeksUntil (currentDate timeMax : Time) : nat :=
  if Before currentDate timeMax || Equal currentDate timeMax
  then S (Z.to_nat ((unixNano timeMax - unixNano currentDate) / (7 * nanosPerDay)))
  else O.

Lemma weeksLoop_exact eventsByDate timeMax fuel : forall currentDate,
  (if Before currentDate timeMax || Equal currentDate timeMax
   then (unixNano timeMax - unixNano currentDate) / nanosPerDay + 2 else 1)
    <= Z.of_nat fuel ->
  weeksLoop fuel eventsByDate currentDate timeMax
  = Some (flat_map (weekBlock eventsByDate)
                   (weekStarts currentDate (weeksUntil currentDate timeMax))).
Proof.
  assert (Hday : 0 < nanosPerDay) by (unfold nanosPerDay, secondsPerDay, Second; lia).
  induction fuel as [|fuel IH]; intros cur Hfuel.
  - exfalso. change (Z.of_nat 0) with 0 in Hfuel. unfold Before, Equal in Hfuel.
    destruct (Z.ltb_spec (unixNano cur) (unixNano timeMax));
      destruct (Z.eqb_spec (unixNano cur) (unixNano timeMax));
      cbn [orb] in Hfuel; try lia;
      assert (0 <= (unixNano timeMax - unixNano cur) / nanosPerDay)
        by (apply Z.div_pos; lia); lia.
  - cbn [weeksLoop]. unfold weeksUntil at 1.
    destruct (Before cur timeMax || Equal cur timeMax) eqn:Hcond; [|reflexivity].
    assert (Hle : unixNano cur <= unixNano timeMax).
    { unfold Before, Equal in Hcond. apply orb_true_iff in Hcond as [H|H].
      - apply Z.ltb_lt in H. lia.
      - apply Z.eqb_eq in H. lia. }
    assert (Hq : 0 <= (unixNano timeMax - unixNano cur) / nanosPerDay)
      by (apply Z.div_pos; lia).
    assert (Hq7 : 0 <= (unixNano timeMax - unixNano cur) / (7 * nanosPerDay))
      by (apply Z.div_pos; lia).
    assert (Hnext : weeksUntil (AddDate cur 7) timeMax
                    = Z.to_nat ((unixNano timeMax - unixNano cur) / (7 * nanosPerDay))).
    { unfold weeksUntil, Before, Equal. rewrite AddDate_unixNano.
      assert (Hshift : (unixNano timeMax - (unixNano cur + 7 * nanosPerDay))
                         / (7 * nanosPerDay)
                       = (unixNano timeMax - unixNano cur) / (7 * nanosPerDay) - 1).
      { replace (unixNano timeMax - (unixNano cur + 7 * nanosPerDay))
          with (unixNano timeMax - unixNano cur + (-1) * (7 * nanosPerDay)) by lia.
        rewrite Z.div_add by lia. lia. }
      rewrite Hshift.
      destruct (Z.ltb_spec (unixNano cur + 7 * nanosPerDay) (unixNano timeMax)) as [Hlt|Hge];
        destruct (Z.eqb_spec (unixNano cur + 7 * nanosPerDay) (unixNano timeMax)) as [Heq|Hne];
        cbn [orb].
      - lia.
      - assert (1 <= (unixNano timeMax - unixNano cur) / (7 * nanosPerDay))
          by (apply Z.div_le_lower_bound; lia).
        lia.
      - assert (1 <= (unixNano timeMax - unixNano cur) / (7 * nanosPerDay))
          by (apply Z.div_le_lower_bound; lia).
        lia.
      - assert ((unixNano timeMax - unixNano cur) / (7 * nanosPerDay) = 0)
          by (apply Z.div_small; lia).
        lia. }
    rewrite IH.
    + rewrite Hnext. reflexivity.
    + unfold Before, Equal. rewrite AddDate_unixNano.
      assert ((unixNano timeMax - (unixNano cur + 7 * nanosPerDay)) / nanosPerDay
              = (unixNano timeMax - unixNano cur) / nanosPerDay - 7) as ->.
      { replace (unixNano timeMax - (unixNano cur + 7 * nanosPerDay))
          with (unixNano timeMax - unixNano cur + (-7) * nanosPerDay) by lia.
        rewrite Z.div_add by lia. lia. }
      destruct ((unixNano cur + 7 * nanosPerDay <? unixNano timeMax)
                || (unixNano cur + 7 * nanosPerDay =? unixNano timeMax)); lia.
Qed.

(** From a Monday on, [displayCalendar] prints the weeks counted by
    [weeksUntil], beginning with that Monday's. *)
Lemma displayCalendar_from_monday
    (ParseRFC3339 : string -> option Time) (ParseCivil : string -> option (Z * Z * Z))
    (entries : list (string * list Event)) (timeMin timeMax : Time) :
  Weekday timeMin = Monday ->
  exists eventsByDate,
    buildGrid ParseRFC3339 ParseCivil entries ∅ = Some eventsByDate /\
    displayCalendar ParseRFC3339 ParseCivil entries timeMin timeMax
    = Some (flat_map (weekBlock eventsByDate)
                     (weekStarts timeMin (weeksUntil timeMin timeMax))
            ++ [""%string]).
Proof.
  intros Hmonday.
  destruct (buildGrid_spec ParseRFC3339 ParseCivil entries ∅) as (g & Hgrid & _).
  exists g. split; [exact Hgrid|].
  unfold displayCalendar. rewrite Hgrid.
  assert (Hseek : seekWeekday weekFuel Monday (-1) timeMin = Some timeMin).
  { unfold weekFuel. cbn [seekWeekday]. rewrite Hmonday, Z.eqb_refl. reflexivity. }
  rewrite Hseek, weeksLoop_exact by apply daysFuel_enough_weeks.
  reflexivity.
Qed.

Lemma weekStarts_length weeks : forall currentDate,
  length (weekStarts currentDate weeks) = weeks.
Proof.
  induction weeks as [|weeks IH]; intros cur; cbn [weekStarts length]; [reflexivity|].
  by rewrite IH.
Qed.

(** The window of [main] begins on a Monday and, when the day count does
    not overflow and is not negative, spans [N + 1] weeks. *)
Lemma queryWindow_weeks (timeNow : Time) (N : Z) :
  exists w,
    queryWindow timeNow N = Some w /\
    Weekday (winStart w) = Monday /\
    (0 <= N -> N * 7 <= maxInt64 ->
     weeksUntil (winStart w) (winEnd w) = Z.to_nat (N + 1)).
Proof.
  eexists. split; [apply queryWindow_eq|].
  cbn [winStart winEnd]. split.
  - unfold Weekday.
    replace (mondayOf timeNow * secondsPerDay * Second)
      with ((mondayOf timeNow * secondsPerDay + 0 - 0) * Second) by lia.
    rewrite civilDay_of_clock by (unfold secondsPerDay; lia).
    apply mondayOf_weekday.
  - intros HN0 HN.
    rewrite wrapInt64_small by (unfold maxInt64 in *; lia).
    assert (Hsun : sundayOf timeNow (N * 7) = mondayOf timeNow + N * 7 + 6).
    { unfold sundayOf. generalize (mondayOf timeNow). intros mon.
      Z.to_euclidean_division_equations. lia. }
    rewrite Hsun. unfold weeksUntil, Before, Equal. cbn [unixNano].
    generalize (mondayOf timeNow). intros mon.
    assert (Hlt : mon * secondsPerDay * Second
                  < ((mon + N * 7 + 6) * secondsPerDay + 86399) * Second)
      by (unfold secondsPerDay, Second; lia).
    destruct (Z.ltb_spec (mon * secondsPerDay * Second)
                (((mon + N * 7 + 6) * secondsPerDay + 86399) * Second)) as [_|Hge];
      [|lia].
    cbn [orb]. rewrite <- Z2Nat.inj_succ.
    + f_equal.
      unfold nanosPerDay, secondsPerDay, Second.
      Z.to_euclidean_division_equations. lia.
    + apply Z.div_pos; unfold nanosPerDay, secondsPerDay, Second; lia.
Qed.

(** The window begins in the week before "now". *)
Lemma queryWindow_start_near (timeNow : Time) (N : Z) (w : Window) :
  queryWindow timeNow N = Some w ->
  unixNano (winStart w) <= unixNano timeNow < unixNano (winStart w) + 7 * nanosPerDay.
Proof.
  rewrite queryWindow_eq. intros [= <-]. cbn [winStart unixNano].
  unfold mondayOf, Weekday, civilDay, wallSeconds, UTC, Monday.
  cbn [unixNano zoneOffset]. unfold nanosPerDay, secondsPerDay, Second.
  generalize (unixNano timeNow). intros ns.
  Z.to_euclidean_division_equations. lia.
Qed.

Lemma lookup_weekStarts weeks : forall currentDate (i : nat) monday,
  weekStarts currentDate weeks !! i = Some monday ->
  monday = AddDate currentDate (7 * Z.of_nat i).
Proof.
  induction weeks as [|weeks IH]; intros cur i monday Hi; cbn [weekStarts] in Hi.
  - by rewrite lookup_nil in Hi.
  - destruct i as [|i]; cbn [lookup list_lookup] in Hi.
    + injection Hi as <-. change (7 * Z.of_nat 0) with 0. by rewrite AddDate_0.
    + apply IH in Hi. rewrite Hi, AddDate_AddDate.
      replace (7 + 7 * Z.of_nat i) with (7 * Z.of_nat (S i)) by lia. reflexivity.
Qed.

(** ** [main]: what is printed *)


Section main_theorems.

Variable ParseRFC3339 : string -> option Time.
Variable ParseCivil : string -> option (Z * Z * Z).
Variable LoadLocation : string -> option Location.
Variable listEvents : string -> Result (list Event).
Variable cfg : Config.

Lemma joined_map_unique (calendars : gset string) (st st' : Collecting) :
  joined ParseRFC3339 ParseCivil LoadLocation listEvents cfg calendars st ->
  joined ParseRFC3339 ParseCivil LoadLocation listEvents cfg calendars st' ->
  eventsByPerson st = eventsByPerson st'.
Proof.
  intros Hj Hj'. apply map_eq. intros email.
  rewrite (joined_lookup _ _ _ _ _ calendars st email Hj).
  rewrite (joined_lookup _ _ _ _ _ calendars st' email Hj').
  reflexivity.
Qed.

(** X20.  What [main] prints is determined by the answers of the
    provider: neither the order in which the goroutines finish nor the
    order in which the map is ranged over shows in the output. *)
Theorem main_output_unique (timeNow : Time) (calendars : gset string)
    (lines lines' : list string) :
  mainPrints ParseRFC3339 ParseCivil LoadLocation listEvents cfg timeNow calendars lines ->
  mainPrints ParseRFC3339 ParseCivil LoadLocation listEvents cfg timeNow calendars lines' ->
  lines = lines'.
Proof.
  intros (w & st & entries & Hw & Hj & Hperm & Hprint)
         (w' & st' & entries' & Hw' & Hj' & Hperm' & Hprint').
  rewrite Hw in Hw'. injection Hw' as <-.
  assert (Hsame : entries ≡ₚ entries').
  { rewrite Hperm, Hperm', (joined_map_unique calendars st st' Hj Hj'). reflexivity. }
  unfold displayCalendar in Hprint, Hprint'.
  destruct (buildGrid_spec ParseRFC3339 ParseCivil entries ∅) as (g & Hrun & _).
  destruct (buildGrid_spec ParseRFC3339 ParseCivil entries' ∅) as (g' & Hrun' & _).
  rewrite Hrun in Hprint. rewrite Hrun' in Hprint'.
  destruct (seekWeekday weekFuel Monday (-1) (winStart w)) as [startDate|];
    [|discriminate].
  rewrite (weeksLoop_ext g g' (winEnd w) _
             (buildGrid_perm ParseRFC3339 ParseCivil entries entries' g g'
                Hsame Hrun Hrun')) in Hprint.
  congruence.
Qed.

(** X21.  With a current time and a weeks-ahead count [N] in the range
    of Go's time arithmetic, [N] not negative, [main] prints exactly
    [N + 1] week blocks, the first for the week of the window's start,
    each for the week after the one before, and an empty line at the
    end; the days of all these weeks are in that range. *)
Theorem main_prints_weeks (timeNow : Time) (calendars : gset string)
    (lines : list string) :
  within (2 ^ 61) timeNow ->
  0 <= WeeksAhead cfg <= maxWeeks ->
  mainPrints ParseRFC3339 ParseCivil LoadLocation listEvents cfg timeNow calendars lines ->
  exists w eventsByDate mondays,
    queryWindow timeNow (WeeksAhead cfg) = Some w /\
    length mondays = Z.to_nat (WeeksAhead cfg + 1) /\
    (forall (i : nat) monday, mondays !! i = Some monday ->
       monday = AddDate (winStart w) (7 * Z.of_nat i) /\
       within (2 ^ 62) monday /\ within (2 ^ 62) (AddDate monday 7)) /\
    lines = flat_map (weekBlock eventsByDate) mondays ++ [""%string].
Proof.
  intros Hnear [HN0 HNmax] (w & st & entries & Hw & _ & _ & Hprint).
  assert (HN : WeeksAhead cfg * 7 <= maxInt64)
    by (unfold maxWeeks, maxInt64 in *; lia).
  pose proof (queryWindow_start_near _ _ _ Hw) as Hstart.
  destruct (queryWindow_weeks timeNow (WeeksAhead cfg)) as (w' & Hw' & Hmonday & Hweeks).
  rewrite Hw in Hw'. injection Hw' as <-.
  destruct (displayCalendar_from_monday ParseRFC3339 ParseCivil entries
              (winStart w) (winEnd w) Hmonday) as (g & _ & Hout).
  rewrite Hprint in Hout. injection Hout as ->.
  rewrite (Hweeks HN0 HN).
  exists w, g, (weekStarts (winStart w) (Z.to_nat (WeeksAhead cfg + 1))).
  split; [exact Hw|]. split; [apply weekStarts_length|]. split; [|reflexivity].
  intros i monday Hi.
  pose proof (lookup_lt_Some _ _ _ Hi) as Hlt. rewrite weekStarts_length in Hlt.
  apply lookup_weekStarts in Hi. subst monday.
  split; [reflexivity|].
  unfold within in *. rewrite AddDate_AddDate, !AddDate_unixNano.
  unfold maxWeeks, nanosPerDay, secondsPerDay, Second in *. lia.
Qed.


End main_theorems.

Lemma main_output_unique_witness :
  exists lines lines',
    mainPrints sampleParseRFC3339 sampleParseCivil sampleLoadLocation
      sampleListEvents sampleConfig tuesdayMorning sampleCalendars lines /\
    mainPrints sampleParseRFC3339 sampleParseCivil sampleLoadLocation
      sampleListEvents sampleConfig tuesdayMorning sampleCalendars lines' /\
    lines = lines'.
Proof.
  destruct (main_prints sampleParseRFC3339 sampleParseCivil sampleLoadLocation
              sampleListEvents sampleConfig tuesdayMorning sampleCalendars)
    as [lines Hprints].
  exists lines, lines. split; [exact Hprints|]. split; [exact Hprints|].
  apply (main_output_unique sampleParseRFC3339 sampleParseCivil sampleLoadLocation
           sampleListEvents sampleConfig tuesdayMorning sampleCalendars lines lines);
    exact Hprints.
Defined.

Lemma main_prints_weeks_witness :
  exists lines w eventsByDate mondays,
    mainPrints sampleParseRFC3339 sampleParseCivil sampleLoadLocation
      sampleListEvents sampleConfig tuesdayMorning sampleCalendars lines /\
    queryWindow tuesdayMorning 8 = Some w /\
    length mondays = 9%nat /\
    (forall (i : nat) monday, mondays !! i = Some monday ->
       monday = AddDate (winStart w) (7 * Z.of_nat i)) /\
    lines = flat_map (weekBlock eventsByDate) mondays ++ [""%string].
Proof.
  destruct (main_prints sampleParseRFC3339 sampleParseCivil sampleLoadLocation
              sampleListEvents sampleConfig tuesdayMorning sampleCalendars)
    as [lines Hprints].
  destruct (main_prints_weeks sampleParseRFC3339 sampleParseCivil sampleLoadLocation
              sampleListEvents sampleConfig tuesdayMorning sampleCalendars lines)
    as (w & g & mondays & Hw & Hlen & Hnth & Hlines).
  - split; vm_compute; [discriminate|reflexivity].
  - split; vm_compute; discriminate.
  - exact Hprints.
  - exists lines, w, g, mondays.
    split; [exact Hprints|]. split; [exact Hw|]. split; [exact Hlen|].
    split; [|exact Hlines].
    intros i monday Hi. apply (proj1 (Hnth i monday Hi)).
Defined.



(** ** [displayCalendar]: the table is aligned *)

Lemma length_append (s t : string) :
  String.length (s ++ t) = (String.length s + String.length t)%nat.
Proof.
  induction s as [|c s IH]; [reflexivity|].
  change (S (String.length (s ++ t)) = S (String.length s + String.length t)).
  by rewrite IH.
Qed.

Lemma length_spaces n : String.length (spaces n) = n.
Proof. unfold spaces. induction n as [|n IH]; cbn; [reflexivity|]. by rewrite IH. Qed.

Lemma length_substring_0 n : forall s,
  (n <= String.length s)%nat -> String.length (substring 0 n s) = n.
Proof.
  induction n as [|n IH]; intros s Hlen.
  - destruct s; reflexivity.
  - destruct s as [|c s]; cbn in Hlen; [lia|]. cbn. rewrite IH; [reflexivity|lia].
Qed.

Lemma length_padRight width s :
  (String.length s <= width)%nat -> String.length (padRight width s) = width.
Proof. intros Hle. unfold padRight. rewrite length_append, length_spaces. lia. Qed.

Lemma length_displayName person : (String.length (displayName person) <= 20)%nat.
Proof.
  unfold displayName. destruct (Nat.ltb_spec 20 (String.length person)) as [Hlong|Hshort].
  - rewrite length_append, length_substring_0 by lia. cbn. lia.
  - exact Hshort.
Qed.

Lemma civilFromDays_ranges z :
  let '(y, m, d) := civilFromDays z in 1 <= m <= 12 /\ 1 <= d <= 31.
Proof.
  unfold civilFromDays.
  set (z' := z + daysToEpochShift).
  set (era := z' / daysPerEra).
  set (doe := z' - era * daysPerEra).
  assert (Hdoe : 0 <= doe < daysPerEra).
  { subst doe era. unfold daysPerEra.
    pose proof (Z.div_mod z' 146097 ltac:(lia)).
    pose proof (Z.mod_pos_bound z' 146097 ltac:(lia)). lia. }
  destruct (eraDay_bounds doe Hdoe) as [_ Hdoy].
  set (doy := dayOfYear doe) in *.
  set (mp := (5 * doy + 2) / 153).
  split.
  - destruct (Z.ltb_spec mp 10); subst mp; Z.to_euclidean_division_equations; lia.
  - subst mp. Z.to_euclidean_division_equations. lia.
Qed.

Lemma Day_range t : 1 <= Day t <= 31.
Proof.
  unfold Day, YearMonthDay. pose proof (civilFromDays_ranges (civilDay t)) as H.
  destruct (civilFromDays (civilDay t)) as [[y m] d]. apply H.
Qed.

Lemma Month_range t : 1 <= Month t <= 12.
Proof.
  unfold Month, YearMonthDay. pose proof (civilFromDays_ranges (civilDay t)) as H.
  destruct (civilFromDays (civilDay t)) as [[y m] d]. apply H.
Qed.

Lemma length_monthAbbreviation m :
  1 <= m <= 12 -> String.length (monthAbbreviation m) = 3%nat.
Proof.
  intros Hm.
  assert (Hcases : m = 1 \/ m = 2 \/ m = 3 \/ m = 4 \/ m = 5 \/ m = 6 \/ m = 7
                   \/ m = 8 \/ m = 9 \/ m = 10 \/ m = 11 \/ m = 12) by lia.
  repeat destruct Hcases as [->|Hcases]; try subst m; reflexivity.
Qed.

Lemma length_pretty_day d :
  1 <= d <= 31 -> (String.length (pretty d) <= 2)%nat.
Proof.
  intros Hd.
  assert (Hnat : d = Z.of_nat (Z.to_nat d)) by lia.
  rewrite Hnat. assert (Hn : (1 <= Z.to_nat d <= 31)%nat) by lia.
  generalize dependent (Z.to_nat d). intros n _ Hn.
  do 32 (destruct n as [|n]; [try lia; vm_compute; lia|]). lia.
Qed.

Lemma length_weekHeader currentDate : String.length (weekHeader currentDate) = 64%nat.
Proof.
  unfold weekHeader. cbv zeta. rewrite length_append, length_padRight; [reflexivity|].
  rewrite !length_append.
  rewrite !length_monthAbbreviation by apply Month_range.
  pose proof (length_pretty_day _ (Day_range currentDate)).
  pose proof (length_pretty_day _ (Day_range (AddDate currentDate 6))).
  cbn [String.length]. lia.
Qed.

Lemma length_cells eventsByDate currentDate person (offsets : list Z) : forall row,
  String.length
    (foldl (fun row i =>
              if decide (person ∈ peopleOn eventsByDate (FormatDate (AddDate currentDate i)))
              then (row ++ " OOO |")%string
              else (row ++ "     |")%string) row offsets)
  = (String.length row + 6 * length offsets)%nat.
Proof.
  induction offsets as [|i offsets IH]; intros row; cbn [foldl length]; [lia|].
  rewrite IH. case_decide; rewrite length_append; cbn [String.length]; lia.
Qed.

Lemma length_personRow eventsByDate currentDate person :
  String.length (personRow eventsByDate currentDate person) = 64%nat.
Proof.
  unfold personRow. rewrite length_cells, length_append, length_padRight
    by apply length_displayName.
  reflexivity.
Qed.

(** The lines of a week are the empty line, the line that says there is
    nothing, or lines as wide as the rule. *)
Definition aligned (line : string) : Prop :=
  line = ""%string \/ line = "No OOO Events"%string
  \/ String.length line = String.length rule.

(** X23.  The table is aligned: for people whose names are ASCII, the
    header of a week and the row of every person are exactly as wide
    as the rule under them (64 characters), however long the name is. *)
Theorem weekBlock_aligned (eventsByDate : Grid) (currentDate : Time) :
  (forall dateKey person,
     person ∈ peopleOn eventsByDate dateKey -> isASCII person = true) ->
  String.length rule = 64%nat /\
  Forall aligned (weekBlock eventsByDate currentDate) /\
  (forall person, isASCII person = true ->
     String.length (personRow eventsByDate currentDate person) = 64%nat).
Proof.
  intros _. split; [reflexivity|]. split; [|intros person _; apply length_personRow].
  assert (Hrule : aligned rule) by (right; right; reflexivity).
  unfold weekBlock. apply Forall_app. split; [|apply Forall_app; split].
  - apply Forall_cons. split; [by left|].
    apply Forall_cons. split; [right; right; apply length_weekHeader|].
    apply Forall_cons. split; [exact Hrule|apply Forall_nil_2].
  - unfold weekBody. destruct (people eventsByDate currentDate) as [|p ps].
    + apply Forall_cons. split; [by right; left|apply Forall_nil_2].
    + apply Forall_forall. intros line Hin. apply list_elem_of_In in Hin.
      apply in_map_iff in Hin as (person & <- & _).
      right; right. apply length_personRow.
  - apply Forall_cons. split; [exact Hrule|apply Forall_nil_2].
Qed.

(** A grid with one person, whose address is longer than the column. *)
Definition oneLongName : Grid :=
  {[ (2025, 5, 13) := {[ "bartholomew.longname@example.com"%string ]} ]}.

Lemma weekBlock_aligned_witness :
  String.length rule = 64%nat /\
  Forall aligned (weekBlock oneLongName (Date 2025 5 12 0 0 0 0 UTCLoc)) /\
  (forall person, isASCII person = true ->
     String.length (personRow oneLongName (Date 2025 5 12 0 0 0 0 UTCLoc) person)
     = 64%nat).
Proof.
  apply (weekBlock_aligned oneLongName (Date 2025 5 12 0 0 0 0 UTCLoc)).
  intros dateKey person. unfold peopleOn, oneLongName.
  destruct (decide (dateKey = (2025, 5, 13))) as [->|Hne].
  - rewrite lookup_singleton_eq. intros Hin. apply elem_of_singleton in Hin.
    subst person. reflexivity.
  - rewrite lookup_singleton_ne by congruence. intros Hin.
    by apply not_elem_of_empty in Hin.
Defined.
